(** * easyfolios-downloader: [adb_automation.py]

    A shallow embedding of the screenshot / template-match / gesture loop
    of [adb_automation.py], and the properties of its specification.

    Modelling conventions.
    - The program talks to three outside parties: the file system (the
      screenshot and the template pictures), the adb bridge and the
      terminal.  They are the [World]: a finite map from path to file,
      and the chronological [log] of everything the program did (commands
      sent to the bridge, pauses, printed messages).
    - The bridge is a [Device]: what a [screencap] produces and whether an
      [input] command succeeds may depend on the whole history.
    - OpenCV is an external library.  [cv2.matchTemplate] is a parameter
      of the development, its score map a matrix of rationals;
      [cv2.minMaxLoc], [numpy.where] and [cv2.groupRectangles] are written
      out after their documented behaviour.
    - Python's bounded [for] loops are recursion on the bound, [break] and
      [continue] are the two values of [Flow].
    - Exceptions the code does not catch are outside the model: adb can be
      started for every gesture, and the template fits in the screenshot. *)

From Stdlib Require Import ZArith QArith List Lia.
From stdpp Require Import base gmap strings list.

Local Open Scope Z_scope.
Set Warnings "-abstract-large-number".

(** ** The template matcher *)

(** The result of [cv2.matchTemplate]: rows (y) of columns (x) of scores. *)
Abbreviation ScoreMap := (list (list Q)).

(** A rectangle as the code builds it: [[x, y, w, h]]. *)
Definition Rect : Type := Z * Z * Z * Z.

Module Cv2.

(** Every cell of a score map with its position [(x, y)], row by row. *)
Definition cells (res : ScoreMap) : list ((nat * nat) * Q) :=
  concat (imap (fun y row => imap (fun x v => ((x, y), v)) row) res).

Definition score_at (res : ScoreMap) (x y : nat) : option Q :=
  match res !! y with
  | Some row => row !! x
  | None => None
  end.

(** [cv2.minMaxLoc], the maximum half: the largest score and the first
    place, in scan order, that holds it.  [None] on an empty map, which
    [cv2.matchTemplate] never returns. *)
Definition better (best : option ((nat * nat) * Q)) (c : (nat * nat) * Q)
  : option ((nat * nat) * Q) :=
  match best with
  | None => Some c
  | Some b => if Qle_bool (snd c) (snd b) then Some b else Some c
  end.

Definition minMaxLoc (res : ScoreMap) : option ((nat * nat) * Q) :=
  fold_left better (cells res) None.

(** [np.where(res >= threshold)] zipped into [(x, y)] points. *)
Definition where_ge (res : ScoreMap) (threshold : Q) : list (nat * nat) :=
  map fst (List.filter (fun c => Qle_bool threshold (snd c)) (cells res)).

(** [cvRound]: nearest integer, ties to even. *)
Definition cvRound (q : Q) : Z :=
  let n := Qnum q in
  let d := Zpos (Qden q) in
  let f := n / d in
  let r := n mod d in
  if 2 * r <? d then f
  else if d <? 2 * r then f + 1
  else if Z.even f then f else f + 1.

(** [SimilarRects(eps)]: the four sides differ by at most
    [eps * (min w + min h) / 2]. *)
Definition similar_rects (eps : Q) (r1 r2 : Rect) : bool :=
  let '(x1, y1, w1, h1) := r1 in
  let '(x2, y2, w2, h2) := r2 in
  let delta := (eps * inject_Z (Z.min w1 w2 + Z.min h1 h2) * (1 # 2))%Q in
  let near (a b : Z) := Qle_bool (inject_Z (Z.abs (a - b))) delta in
  near x1 x2 && near y1 y2 && near (x1 + w1) (x2 + w2) && near (y1 + h1) (y2 + h2).

(** [cv::partition]: the classes of the equivalence generated by [same],
    in the order of their first member. *)
Fixpoint absorb {A} (same : A -> A -> bool) (classes : list (list A)) (x : A)
  : list (list A) :=
  match classes with
  | [] => [[x]]
  | c :: rest =>
      if existsb (same x) c
      then (c ++ concat (List.filter (existsb (same x)) rest) ++ [x])
             :: List.filter (fun c' => negb (existsb (same x) c')) rest
      else c :: absorb same rest x
  end.

Definition partition {A} (same : A -> A -> bool) (l : list A) : list (list A) :=
  fold_left (absorb same) l [].

Definition sum_rects (c : list Rect) : Rect :=
  fold_left (fun '(sx, sy, sw, sh) '(x, y, w, h) => (sx + x, sy + y, sw + w, sh + h))
            c (0, 0, 0, 0).

(** The average rectangle of a class, and the size of the class. *)
Definition average (c : list Rect) : Rect * Z :=
  let n := Z.of_nat (length c) in
  let '(sx, sy, sw, sh) := sum_rects c in
  let avg (s : Z) := cvRound (inject_Z s / inject_Z n)%Q in
  ((avg sx, avg sy, avg sw, avg sh), n).

(** The second filter of [groupRectangles]: [r1] lies inside [r2] grown by
    [eps], and [r2] has more support. *)
Definition nested (eps : Q) (r1 : Rect) (n1 : Z) (r2 : Rect) (n2 : Z) : bool :=
  let '(x1, y1, w1, h1) := r1 in
  let '(x2, y2, w2, h2) := r2 in
  let dx := cvRound (inject_Z w2 * eps)%Q in
  let dy := cvRound (inject_Z h2 * eps)%Q in
  (x2 - dx <=? x1) && (y2 - dy <=? y1)
  && (x1 + w1 <=? x2 + w2 + dx) && (y1 + h1 <=? y2 + h2 + dy)
  && ((Z.max 3 n1 <? n2) || (n1 <? 3)).

(** [cv2.groupRectangles(rectList, groupThreshold, eps)]: cluster the
    rectangles, reject every cluster of at most [groupThreshold]
    rectangles, replace each other cluster by its average rectangle, and
    drop an average nested in a better supported one.  Returns the
    rectangles and their weights (the cluster sizes). *)
Definition groupRectangles (rectList : list Rect) (groupThreshold : Z) (eps : Q)
  : list Rect * list Z :=
  if (groupThreshold <=? 0) || bool_decide (rectList = [])
  then (rectList, map (fun _ => 1) rectList)
  else
    let rrects := map average (partition (similar_rects eps) rectList) in
    let indexed := imap (fun i rn => (i, rn)) rrects in
    let kept :=
      List.filter
        (fun '(i, (r1, n1)) =>
           (groupThreshold <? n1)
           && negb (existsb
                      (fun '(j, (r2, n2)) =>
                         negb (Nat.eqb j i) && (groupThreshold <? n2)
                         && nested eps r1 n1 r2 n2)
                      indexed))
        indexed in
    (map (fun '(_, (r, _)) => r) kept, map (fun '(_, (_, n)) => n) kept).

End Cv2.

(** ** The world of the program *)

(** Why a tap is made: the call site of [tap_element].  A label of the
    model only; it never influences what the program does. *)
Inductive Purpose := ClosePhoto | Download | OpenEntry | GoBack.

(** What the program prints. *)
Inductive Message :=
| ScreenshotSaved (path : string)
| ErrorTakingScreenshot
| AdbNotFound
| TemplateFileNotFound (path : string)
| ScreenshotFileNotFound (path : string)
| ErrorLoadingImages
| ElementNotFoundMax (path : string) (max_val : Q)
| ElementNotFound (path : string)
| ErrorTappingElement
| FailedToTakeScreenshot
| ClosingOpenPhoto
| DownloadingImageAt (x y : Z)
| NoRightArrowsFound
| DryRunEnabled.

(** What the program does, in order: the adb commands it runs (with the
    exit status of a screen capture), its pauses and its messages. *)
Inductive Event :=
| Screencap (ok : bool)
| Tap (why : Purpose) (x y : Z)
| Swipe (start_x start_y end_x end_y duration : Z)
| Sleep (seconds : Z)
| Print (m : Message).

Definition is_capture (e : Event) : bool :=
  match e with Screencap _ => true | _ => false end.

Definition is_tap (e : Event) : bool :=
  match e with Tap _ _ _ => true | _ => false end.

Definition is_download_tap (e : Event) : bool :=
  match e with Tap Download _ _ => true | _ => false end.

Definition is_back_tap (e : Event) : bool :=
  match e with Tap GoBack _ _ => true | _ => false end.

(** A navigation gesture: a scroll, or a tap that is not a download. *)
Definition is_navigation (e : Event) : bool :=
  match e with
  | Tap Download _ _ => false
  | Tap _ _ _ => true
  | Swipe _ _ _ _ _ => true
  | _ => false
  end.

(** A gesture or a pause: what the device and the user can observe. *)
Definition is_gesture (e : Event) : bool :=
  match e with
  | Tap _ _ _ | Swipe _ _ _ _ _ | Sleep _ => true
  | _ => false
  end.

(** A command sent to the bridge. *)
Definition is_command (e : Event) : bool :=
  match e with
  | Screencap _ | Tap _ _ _ | Swipe _ _ _ _ _ => true
  | _ => false
  end.

Definition captures (l : list Event) : list Event := List.filter is_capture l.
Definition downloads (l : list Event) : list Event := List.filter is_download_tap l.
Definition taps (l : list Event) : list Event := List.filter is_tap l.
Definition back_taps (l : list Event) : list Event := List.filter is_back_tap l.
Definition navigation (l : list Event) : list Event := List.filter is_navigation l.
Definition gestures (l : list Event) : list Event := List.filter is_gesture l.
Definition commands (l : list Event) : list Event := List.filter is_command l.

(** What the program does to the device and when: everything in the log
    but the messages. *)
Definition is_action (e : Event) : bool :=
  match e with Print _ => false | _ => true end.

Definition actions (l : list Event) : list Event := List.filter is_action l.

(** How a Python call ends, for the two exceptions the code catches. *)
Inductive Outcome := Returned | CalledProcessError | FileNotFoundError.

(** [continue] (or the end of the body) and [break]. *)
Inductive Flow := Continue | Break.

Section Program.

Context {Image : Type}.

(** A file that [cv2.imread] decodes, or one it returns [None] for. *)
Inductive File := Picture (img : Image) | Unreadable.

(** One run of [adb exec-out screencap -p]: its exit status and what it
    wrote to its standard output, or no adb to run. *)
Inductive Capture := Exited (ok : bool) (out : File) | NoAdb.

Record Device := {
  screencap : list Event -> Capture;
  input : list Event -> bool
}.

Record World := {
  fs : gmap string File;
  log : list Event
}.

(** [template.shape[:2]], as [(h, w)]. *)
Variable shape : Image -> Z * Z.
(** [cv2.matchTemplate(img, template, cv2.TM_CCOEFF_NORMED)]. *)
Variable matchTemplate : Image -> Image -> ScoreMap.
Variable dev : Device.

(** *** The state monad of the program *)

Definition M (A : Type) : Type := World -> A * World.

#[global] Instance M_ret : MRet M := fun A (a : A) w => (a, w).
#[global] Instance M_bind : MBind M := fun A B (k : A -> M B) (m : M A) w =>
  let (a, w') := m w in k a w'.

Definition emit (e : Event) : M unit :=
  fun w => (tt, {| fs := fs w; log := log w ++ [e] |}).

Definition print (m : Message) : M unit := emit (Print m).

(** [time.sleep] *)
Definition sleep (seconds : Z) : M unit := emit (Sleep seconds).

(** [os.path.exists] *)
Definition path_exists (path : string) : M bool :=
  fun w => (bool_decide (is_Some (fs w !! path)), w).

(** [cv2.imread] *)
Definition imread (path : string) : M (option Image) :=
  fun w => (match fs w !! path with Some (Picture img) => Some img | _ => None end, w).

(** [with open(path, "wb") as f: subprocess.check_call([... "screencap",
    "-p"], stdout=f)]: the file is created empty, then adb runs. *)
Definition adb_screencap (path : string) : M Outcome :=
  fun w =>
    match screencap dev (log w) with
    | Exited ok out =>
        (if ok then Returned else CalledProcessError,
         {| fs := <[path := out]> (fs w); log := log w ++ [Screencap ok] |})
    | NoAdb =>
        (FileNotFoundError,
         {| fs := <[path := Unreadable]> (fs w); log := log w ++ [Screencap false] |})
    end.

(** [subprocess.check_call(["adb", "shell", "input", ...])] *)
Definition adb_input (e : Event) : M Outcome :=
  fun w =>
    (if input dev (log w) then Returned else CalledProcessError,
     {| fs := fs w; log := log w ++ [e] |}).

(** [for _ in range(n): body].  Returns whether the loop ran to its end
    (no [break]), Python's [for ... else]. *)
Fixpoint for_range (n : nat) (body : M Flow) : M bool :=
  match n with
  | O => mret true
  | S k =>
      f ← body;
      match f with
      | Break => mret false
      | Continue => for_range k body
      end
  end.

(** [for x in l: body(x)] *)
Fixpoint for_each {A} (l : list A) (body : A -> M unit) : M unit :=
  match l with
  | [] => mret tt
  | x :: rest => body x;; for_each rest body
  end.

(** *** The functions of [adb_automation.py] *)

Definition take_screenshot (output_path : string) : M bool :=
  r ← adb_screencap output_path;
  match r with
  | Returned => print (ScreenshotSaved output_path);; mret true
  | CalledProcessError => print ErrorTakingScreenshot;; mret false
  | FileNotFoundError => print AdbNotFound;; mret false
  end.

Definition find_element (template_path screen_path : string) (threshold : Q)
  : M (option (Z * Z)) :=
  te ← path_exists template_path;
  if negb te then print (TemplateFileNotFound template_path);; mret None else
  se ← path_exists screen_path;
  if negb se then print (ScreenshotFileNotFound screen_path);; mret None else
  img_rgb ← imread screen_path;
  template ← imread template_path;
  match img_rgb, template with
  | Some img_rgb, Some template =>
      let '(h, w) := shape template in
      let res := matchTemplate img_rgb template in
      match Cv2.minMaxLoc res with
      | Some (max_loc, max_val) =>
          if Qle_bool threshold max_val then
            let center_x := Z.of_nat (fst max_loc) + w / 2 in
            let center_y := Z.of_nat (snd max_loc) + h / 2 in
            mret (Some (center_x, center_y))
          else
            print (ElementNotFoundMax template_path max_val);; mret None
      | None => mret None
      end
  | _, _ => print ErrorLoadingImages;; mret None
  end.

Definition find_all_elements (template_path screen_path : string) (threshold : Q)
  : M (list (Z * Z)) :=
  te ← path_exists template_path;
  if negb te then print (TemplateFileNotFound template_path);; mret [] else
  se ← path_exists screen_path;
  if negb se then print (ScreenshotFileNotFound screen_path);; mret [] else
  img_rgb ← imread screen_path;
  template ← imread template_path;
  match img_rgb, template with
  | Some img_rgb, Some template =>
      let '(h, w) := shape template in
      let res := matchTemplate img_rgb template in
      let points := Cv2.where_ge res threshold in
      match points with
      | [] => print (ElementNotFound template_path);; mret []
      | _ =>
          let rects :=
            map (fun pt => (Z.of_nat (fst pt), Z.of_nat (snd pt), w, h)) points in
          let '(rects, weights) := Cv2.groupRectangles rects 1 (2 # 10) in
          mret (map (fun '(x, y, w, h) => (x + w / 2, y + h / 2)) rects)
      end
  | _, _ => print ErrorLoadingImages;; mret []
  end.

Definition tap_element (why : Purpose) (x y : Z) : M bool :=
  r ← adb_input (Tap why x y);
  match r with
  | Returned => mret true
  | _ => print ErrorTappingElement;; mret false
  end.

Definition scroll (start_x start_y end_x end_y duration : Z) : M bool :=
  r ← adb_input (Swipe start_x start_y end_x end_y duration);
  match r with
  | Returned => mret true
  | _ => mret false
  end.

Definition scroll_down_one_entry (current_rightarrow_location : Z * Z) : M bool :=
  scroll 500 (snd current_rightarrow_location) 500 450 1000.

Definition scroll_down_one_picture (current_download_location : Z * Z) : M bool :=
  let cur_x := 500 in
  let cur_y := snd current_download_location in
  let new_y := 495 in
  scroll cur_x cur_y cur_x new_y 1000.

(** The defaults of [find_element] and [find_all_elements]. *)
Definition screen_png : string := "screen.png".
Definition default_threshold : Q := 8 # 10.

(** The body of the first loop of [download_all_photos_from_entry]. *)
Definition entry_iteration (dry_run : bool) : M Flow :=
  ok ← take_screenshot screen_png;
  if negb ok then print FailedToTakeScreenshot;; mret Break else
  coord ← find_element "closepic.png" screen_png default_threshold;
  match coord with
  | Some (x, y) =>
      print ClosingOpenPhoto;;
      tap_element ClosePhoto x y;;
      sleep 1;;
      mret Continue
  | None =>
      coord ← find_element "add_your_comment.png" screen_png default_threshold;
      match coord with
      | Some _ =>
          coords ← find_all_elements "download.png" screen_png default_threshold;
          for_each coords (fun c =>
            if negb dry_run then
              print (DownloadingImageAt (fst c) (snd c));;
              tap_element Download (fst c) (snd c);;
              sleep 1
            else mret tt);;
          mret Break
      | None =>
          coords ← find_all_elements "download.png" screen_png default_threshold;
          match coords with
          | c0 :: _ =>
              (if negb dry_run then
                 print (DownloadingImageAt (fst c0) (snd c0));;
                 tap_element Download (fst c0) (snd c0);;
                 sleep 1
               else mret tt);;
              scroll_down_one_picture c0;;
              mret Continue
          | [] =>
              scroll 500 2200 500 495 1000;;
              mret Continue
          end
      end
  end.

(** The body of its second loop. *)
Definition back_iteration : M Flow :=
  ok ← take_screenshot screen_png;
  if negb ok then mret Break else
  sleep 1;;
  coord ← find_element "back.png" screen_png default_threshold;
  match coord with
  | Some (x, y) =>
      tap_element GoBack x y;;
      sleep 1;;
      mret Break
  | None => mret Continue
  end.

Definition entry_loop (dry_run : bool) : M bool :=
  for_range 100 (entry_iteration dry_run).

Definition back_loop : M bool := for_range 5 back_iteration.

Definition download_all_photos_from_entry (dry_run : bool) : M unit :=
  entry_loop dry_run;;
  back_loop;;
  mret tt.

(** The body of the loop of [__main__]. *)
Definition main_iteration (dry_run : bool) : M Flow :=
  ok ← take_screenshot screen_png;
  at_end ← ((if (ok : bool) then
               coord ← find_element "loadmore.png" screen_png default_threshold;
               mret (bool_decide (is_Some coord))
             else mret false) : M bool);
  if (at_end : bool) then mret Break else
  ok ← take_screenshot screen_png;
  if (ok : bool) then
    coords ← find_all_elements "right.png" screen_png default_threshold;
    match coords with
    | c0 :: _ =>
        tap_element OpenEntry (fst c0) (snd c0);;
        sleep 1;;
        download_all_photos_from_entry dry_run;;
        scroll_down_one_entry c0;;
        mret Continue
    | [] =>
        print NoRightArrowsFound;;
        mret Break
    end
  else mret Continue.

Definition main_loop (dry_run : bool) : M bool :=
  for_range 10000 (main_iteration dry_run).

Definition main (dry_run : bool) : M unit :=
  (if dry_run then print DryRunEnabled else mret tt);;
  main_loop dry_run;;
  mret tt.

End Program.

Arguments File : clear implicits.
Arguments Capture : clear implicits.
Arguments Device : clear implicits.
Arguments World : clear implicits.
Arguments M : clear implicits.

(** ** A synthetic bridge and matcher, to run the program on examples *)

Module Demo.

(** A picture is described by what the matcher sees in it: a template by
    its name and size, a screenshot by the score map of each template. *)
Inductive Pic :=
| Glyph (name : string) (h w : Z)
| Screen (scores : list (string * ScoreMap)).

Definition shape (p : Pic) : Z * Z :=
  match p with
  | Glyph _ h w => (h, w)
  | Screen _ => (2400, 1080)
  end.

Fixpoint assoc (name : string) (l : list (string * ScoreMap)) : ScoreMap :=
  match l with
  | [] => [[0%Q]]
  | (n, m) :: rest => if String.eqb n name then m else assoc name rest
  end.

Definition matchTemplate (img template : Pic) : ScoreMap :=
  match img, template with
  | Screen scores, Glyph name _ _ => assoc name scores
  | _, _ => [[0%Q]]
  end.

(** A bridge that replays a script of captures, one per [screencap], and
    then fails; every gesture succeeds. *)
Definition scripted (script : list (Capture Pic)) : Device Pic :=
  {| screencap := fun l => nth (length (captures l)) script NoAdb;
     input := fun _ => true |}.

(** A bridge that always delivers the same capture. *)
Definition steady (c : Capture Pic) : Device Pic :=
  {| screencap := fun _ => c; input := fun _ => true |}.

(** The six templates of the program, 40 by 40 pixels each. *)
Definition templates : gmap string (File Pic) :=
  list_to_map
    (map (fun n => (n, Picture (Glyph n 40 40)))
         ["closepic.png"; "add_your_comment.png"; "download.png";
          "back.png"; "loadmore.png"; "right.png"]).

Definition world0 : World Pic := {| fs := templates; log := [] |}.

(** A score map of [rows] by [cols] cells, [lo] everywhere but at the
    listed peaks. *)
Definition peaks (rows cols : nat) (lo : Q) (hi : list ((nat * nat) * Q)) : ScoreMap :=
  map (fun y =>
         map (fun x =>
                match List.find (fun p => Nat.eqb (fst (fst p)) x && Nat.eqb (snd (fst p)) y) hi with
                | Some p => snd p
                | None => lo
                end)
             (seq 0 cols))
      (seq 0 rows).

(** The score map of a glyph whose corner is at [(x, y)]: that place and
    its right neighbour pass the threshold, nothing else does. *)
Definition glyph_at (x y : nat) : ScoreMap :=
  peaks (S y) (x + 2) (1 # 10) [((x, y), 1%Q); ((S x, y), (9 # 10)%Q)].

Definition frame (scores : list (string * ScoreMap)) : Capture Pic :=
  Exited true (Picture (Screen scores)).

(** A frame that shows no glyph. *)
Definition blank : Capture Pic := frame [].

(** A frame where the download glyph passes the threshold at one place
    only, its exact position. *)
Definition lone_download : Capture Pic :=
  frame [("download.png", peaks 3 3 (1 # 10) [((1%nat, 1%nat), 1%Q)])].

(** A list with one entry of two photos: the list, the first photo, the
    end of the entry with the second photo, the back button, the end of
    the list. *)
Definition story : list (Capture Pic) :=
  [ frame [("right.png", glyph_at 30 4)];
    frame [("right.png", glyph_at 30 4)];
    frame [("download.png", glyph_at 20 6)];
    frame [("add_your_comment.png", glyph_at 5 9); ("download.png", glyph_at 20 3)];
    frame [("back.png", glyph_at 1 1)];
    frame [("loadmore.png", glyph_at 10 10)] ].

(** The world after a capture of [c]. *)
Definition seeing (c : Capture Pic) : World Pic :=
  snd (take_screenshot (steady c) screen_png world0).

(** A bridge that replays a script by the captures among the actions so
    far, and reports every gesture as [sent]. *)
Definition replay (sent : bool) (script : list (Capture Pic)) : Device Pic :=
  {| screencap := fun l => nth (length (captures (actions l))) script NoAdb;
     input := fun _ => sent |}.

(** A frame with a photo open over the end of an entry. *)
Definition open_photo : Capture Pic :=
  frame [("closepic.png", glyph_at 50 2);
         ("add_your_comment.png", glyph_at 5 9);
         ("download.png", glyph_at 20 3)].

End Demo.

(** ** Observations of a stored frame *)

Section Observations.

Context {Image : Type}.
Variable shape : Image -> Z * Z.
Variable matchTemplate : Image -> Image -> ScoreMap.

(** What [find_element(t)] and [find_all_elements(t)] return when the
    files are [f]; they read nothing else. *)
Definition found (t : string) (f : gmap string (File Image)) : option (Z * Z) :=
  fst (find_element shape matchTemplate t screen_png default_threshold
         {| fs := f; log := [] |}).

Definition found_all (t : string) (f : gmap string (File Image)) : list (Z * Z) :=
  fst (find_all_elements shape matchTemplate t screen_png default_threshold
         {| fs := f; log := [] |}).

(** The commands of the pass that goes back to the list: [k] captures
    without the back glyph, then one of three endings. *)
Definition back_pass_shape (w w' : World Image) (fin : bool) (k : nat)
  (last : list Event) : Prop :=
  commands (log w') = commands (log w) ++ repeat (Screencap true) k ++ last
  ∧ ((k = 5%nat ∧ last = [] ∧ fin = true)
     ∨ ((k < 5)%nat ∧ last = [Screencap false] ∧ fin = false)
     ∨ ((k < 5)%nat ∧ fin = false
        ∧ ∃ x y, last = [Screencap true; Tap GoBack x y]
                 ∧ found "back.png" (fs w') = Some (x, y))).

End Observations.

(** [wp m Q w]: run from [w], [m] returns a value and leaves a world that
    satisfy [Q].  Every computation of [M] returns, so this is total
    correctness. *)
Definition wp {Image A} (m : M Image A) (Q : A -> World Image -> Prop)
  (w : World Image) : Prop :=
  Q (fst (m w)) (snd (m w)).

(** Two worlds that a dry run and a real run can be in at the same point:
    the same files, as many captures made, the same navigation gestures
    sent; and the dry run has sent no download tap since the log [l0]. *)
Definition aligned {Image} (l0 : list Event) (wd wr : World Image) : Prop :=
  fs wd = fs wr
  ∧ length (captures (log wd)) = length (captures (log wr))
  ∧ navigation (log wd) = navigation (log wr)
  ∧ downloads (log wd) = downloads l0.

(** [sim l0 V md mr]: from aligned worlds, [md] and [mr] return values
    related by [V] and leave aligned worlds. *)
Definition sim {Image A} (l0 : list Event) (V : A -> A -> Prop)
  (md mr : M Image A) : Prop :=
  ∀ wd wr, aligned l0 wd wr →
    V (fst (md wd)) (fst (mr wr)) ∧ aligned l0 (snd (md wd)) (snd (mr wr)).

(** The templates the program looks for. *)
Definition glyphs : list string :=
  ["closepic.png"; "add_your_comment.png"; "download.png";
   "back.png"; "loadmore.png"; "right.png"].

(** The coordinates of the downloads a log announces, and of the download
    taps it holds. *)
Definition announced (l : list Event) : list (Z * Z) :=
  flat_map (fun e => match e with
                     | Print (DownloadingImageAt x y) => [(x, y)]
                     | _ => []
                     end) l.

Definition downloaded (l : list Event) : list (Z * Z) :=
  flat_map (fun e => match e with
                     | Tap Download x y => [(x, y)]
                     | _ => []
                     end) l.

(** Two worlds with the same files and the same actions so far. *)
Definition in_step {Image} (w1 w2 : World Image) : Prop :=
  fs w1 = fs w2 ∧ actions (log w1) = actions (log w2).

(** [lockstep V m1 m2]: from worlds in step, [m1] and [m2] return values
    related by [V] and leave worlds in step. *)
Definition lockstep {Image A} (V : A -> A -> Prop) (m1 m2 : M Image A) : Prop :=
  ∀ w1 w2, in_step w1 w2 →
    V (fst (m1 w1)) (fst (m2 w2)) ∧ in_step (snd (m1 w1)) (snd (m2 w2)).

(** No file but the screenshot differs between [w] and [w']. *)
Definition same_templates {Image} (w w' : World Image) : Prop :=
  ∀ p, p ≠ screen_png → fs w' !! p = fs w !! p.

(** [grows c w w']: from [w] to [w'] the log was only appended to, with at
    most [c] captures and every download tap announced, and no file but
    the screenshot was written. *)
Definition grows {Image} (c : nat) (w w' : World Image) : Prop :=
  same_templates w w'
  ∧ ∃ evs, log w' = log w ++ evs
           ∧ (length (captures evs) <= c)%nat
           ∧ announced evs = downloaded evs.

(** * Properties *)

(** ** The matcher *)

Lemma cells_score_at (res : ScoreMap) x y v :
  ((x, y), v) ∈ Cv2.cells res ↔ Cv2.score_at res x y = Some v.
Proof.
  unfold Cv2.cells, Cv2.score_at. rewrite list_elem_of_In, in_concat. split.
  - intros (row' & Hrow & Hin).
    apply list_elem_of_In, elem_of_lookup_imap in Hrow as (i & row & -> & Hi).
    apply list_elem_of_In, elem_of_lookup_imap in Hin as (j & q & Heq & Hj).
    simplify_eq. by rewrite Hi.
  - destruct (res !! y) as [row|] eqn:Hy; [|done]. intros Hx.
    exists (imap (fun x v => ((x, y), v)) row). split; apply list_elem_of_In.
    + by apply (elem_of_lookup_imap_2
                  (fun y row => imap (fun x v => ((x, y), v)) row) res row y).
    + by apply (elem_of_lookup_imap_2 (fun x v => ((x, y), v)) row v x).
Qed.

(** The fold of [minMaxLoc] keeps a cell that no other cell beats. *)
Lemma fold_better_spec (l : list ((nat * nat) * Q)) :
  ∀ acc,
    match fold_left Cv2.better l acc with
    | None => acc = None ∧ l = []
    | Some b =>
        (acc = Some b ∨ b ∈ l)
        ∧ (∀ c, c ∈ l → (snd c <= snd b)%Q)
        ∧ (∀ a, acc = Some a → (snd a <= snd b)%Q)
    end.
Proof.
  induction l as [|c l IH]; intros acc; simpl.
  - destruct acc as [a|]; [|done].
    split; [by left|]. split.
    + intros c Hc. by apply elem_of_nil in Hc.
    + intros a' [= ->]. apply Qle_refl.
  - specialize (IH (Cv2.better acc c)).
    destruct (fold_left Cv2.better l (Cv2.better acc c)) as [b|].
    + destruct IH as (Hb & Hall & Hacc).
      assert (Hc : (snd c <= snd b)%Q).
      { destruct acc as [a|]; simpl in *.
        - destruct (Qle_bool (snd c) (snd a)) eqn:Hle.
          + apply Qle_bool_iff in Hle.
            eapply Qle_trans; [exact Hle|]. by apply Hacc.
          + by apply Hacc.
        - by apply Hacc. }
      split; [|split].
      * destruct Hb as [Hb|Hb]; [|right; by apply elem_of_cons; right].
        destruct acc as [a|]; simpl in Hb.
        -- destruct (Qle_bool (snd c) (snd a)); injection Hb as <-;
             [by left | right; by apply elem_of_cons; left].
        -- injection Hb as <-. right. by apply elem_of_cons; left.
      * intros c' Hc'. apply elem_of_cons in Hc' as [->|Hc']; [done|by apply Hall].
      * intros a ->. simpl in Hacc.
        destruct (Qle_bool (snd c) (snd a)) eqn:Hle; [by apply Hacc|].
        eapply Qle_trans; [|by apply Hacc].
        apply Qlt_le_weak, Qnot_le_lt. intros H.
        apply Qle_bool_iff in H. congruence.
    + destruct IH as [Hacc _]. destruct acc as [a|]; simpl in Hacc; [|done].
      by destruct (Qle_bool (snd c) (snd a)).
Qed.

Lemma minMaxLoc_spec (res : ScoreMap) :
  match Cv2.minMaxLoc res with
  | None => Cv2.cells res = []
  | Some (loc, v) =>
      Cv2.score_at res (fst loc) (snd loc) = Some v
      ∧ ∀ x y v', Cv2.score_at res x y = Some v' → (v' <= v)%Q
  end.
Proof.
  unfold Cv2.minMaxLoc. pose proof (fold_better_spec (Cv2.cells res) None) as H.
  destruct (fold_left Cv2.better (Cv2.cells res) None) as [[[x y] v]|].
  - destruct H as ([H|H] & Hall & _); [done|]. split.
    + by apply cells_score_at.
    + intros x' y' v' Hv'. apply cells_score_at in Hv'. by apply (Hall _ Hv').
  - by destruct H.
Qed.

(** Unfolding the monad of the program, and its functions by layer. *)
Ltac unfold_monad :=
  unfold mbind, mret, M_bind, M_ret, print, sleep, emit, path_exists, imread in *.

Create HintDb matcher.
Create HintDb bridge.
Create HintDb machine.

#[global] Hint Unfold find_element find_all_elements : matcher.
#[global] Hint Unfold take_screenshot tap_element scroll scroll_down_one_entry
  scroll_down_one_picture adb_screencap adb_input : bridge.
#[global] Hint Unfold entry_iteration back_iteration main_iteration
  download_all_photos_from_entry main : machine.
Create HintDb loops.
#[global] Hint Unfold entry_loop back_loop main_loop : loops.

(** ** Projections of the log *)

Lemma captures_app l1 l2 : captures (l1 ++ l2) = captures l1 ++ captures l2.
Proof. apply List.filter_app. Qed.
Lemma taps_app l1 l2 : taps (l1 ++ l2) = taps l1 ++ taps l2.
Proof. apply List.filter_app. Qed.
Lemma navigation_app l1 l2 : navigation (l1 ++ l2) = navigation l1 ++ navigation l2.
Proof. apply List.filter_app. Qed.
Lemma gestures_app l1 l2 : gestures (l1 ++ l2) = gestures l1 ++ gestures l2.
Proof. apply List.filter_app. Qed.
Lemma commands_app l1 l2 : commands (l1 ++ l2) = commands l1 ++ commands l2.
Proof. apply List.filter_app. Qed.
Lemma downloads_app l1 l2 : downloads (l1 ++ l2) = downloads l1 ++ downloads l2.
Proof. apply List.filter_app. Qed.
Lemma back_taps_app l1 l2 : back_taps (l1 ++ l2) = back_taps l1 ++ back_taps l2.
Proof. apply List.filter_app. Qed.

Lemma filter_prints (p : Event -> bool) msgs :
  (∀ m, p (Print m) = false) → List.filter p (map Print msgs) = [].
Proof. intros Hp. induction msgs as [|m msgs IH]; simpl; [done|]. by rewrite Hp. Qed.

Lemma captures_prints msgs : captures (map Print msgs) = [].
Proof. by apply filter_prints. Qed.
Lemma taps_prints msgs : taps (map Print msgs) = [].
Proof. by apply filter_prints. Qed.
Lemma navigation_prints msgs : navigation (map Print msgs) = [].
Proof. by apply filter_prints. Qed.
Lemma gestures_prints msgs : gestures (map Print msgs) = [].
Proof. by apply filter_prints. Qed.
Lemma commands_prints msgs : commands (map Print msgs) = [].
Proof. by apply filter_prints. Qed.
Lemma downloads_prints msgs : downloads (map Print msgs) = [].
Proof. by apply filter_prints. Qed.
Lemma back_taps_prints msgs : back_taps (map Print msgs) = [].
Proof. by apply filter_prints. Qed.

(** A tap on the back glyph is a command. *)
Lemma back_taps_commands l : back_taps (commands l) = back_taps l.
Proof.
  induction l as [|e l IH]; [done|].
  destruct e as [ok|why x y| | |]; simpl; try done.
  - destruct why; simpl; by rewrite ?IH.
Qed.

Create Rewrite HintDb logs.
#[global] Hint Rewrite captures_app taps_app navigation_app gestures_app commands_app
  downloads_app back_taps_app captures_prints taps_prints navigation_prints
  gestures_prints commands_prints downloads_prints back_taps_prints app_nil_r : logs.

Section MatcherProperties.

Context {Image : Type}.
Variable shape : Image -> Z * Z.
Variable matchTemplate : Image -> Image -> ScoreMap.

Local Abbreviation find_element := (find_element shape matchTemplate).
Local Abbreviation find_all_elements := (find_all_elements shape matchTemplate).

(** A query only reads the files and only prints. *)
Lemma find_element_run t s th (w : World Image) :
  ∃ msgs,
    find_element t s th w
    = (fst (find_element t s th {| fs := fs w; log := [] |}),
       {| fs := fs w; log := log w ++ map Print msgs |}).
Proof.
  destruct w as [f l]. autounfold with matcher. unfold_monad. simpl.
  destruct (bool_decide (is_Some (f !! t))); simpl; [|by exists [TemplateFileNotFound t]].
  destruct (bool_decide (is_Some (f !! s))); simpl; [|by exists [ScreenshotFileNotFound s]].
  destruct (f !! s) as [[img|]|]; try by exists [ErrorLoadingImages].
  destruct (f !! t) as [[tpl|]|]; try by exists [ErrorLoadingImages].
  destruct (shape tpl) as [h wd].
  destruct (Cv2.minMaxLoc (matchTemplate img tpl)) as [[loc v]|];
    [|exists []; simpl; by rewrite app_nil_r].
  destruct (Qle_bool th v); [exists []; simpl; by rewrite app_nil_r|].
  by exists [ElementNotFoundMax t v].
Qed.

Lemma find_all_elements_run t s th (w : World Image) :
  ∃ msgs,
    find_all_elements t s th w
    = (fst (find_all_elements t s th {| fs := fs w; log := [] |}),
       {| fs := fs w; log := log w ++ map Print msgs |}).
Proof.
  destruct w as [f l]. autounfold with matcher. unfold_monad. simpl.
  destruct (bool_decide (is_Some (f !! t))); simpl; [|by exists [TemplateFileNotFound t]].
  destruct (bool_decide (is_Some (f !! s))); simpl; [|by exists [ScreenshotFileNotFound s]].
  destruct (f !! s) as [[img|]|]; try by exists [ErrorLoadingImages].
  destruct (f !! t) as [[tpl|]|]; try by exists [ErrorLoadingImages].
  destruct (shape tpl) as [h wd].
  destruct (Cv2.where_ge (matchTemplate img tpl) th) as [|p ps];
    [by exists [ElementNotFound t]|].
  destruct (Cv2.groupRectangles _ _ _) as [rects weights].
  exists []. simpl. by rewrite app_nil_r.
Qed.

(** **** Claim C8.  Looking twice at the same stored screenshot, with the
    same template and the same threshold, gives the same matches in the
    same order: the second call of [find_element], made in the world the
    first one left, returns what the first returned, and so does the
    second call of [find_all_elements]. *)
Theorem observation_idempotent t s th (w : World Image) :
  fst (find_element t s th (snd (find_element t s th w)))
  = fst (find_element t s th w)
  ∧ fst (find_all_elements t s th (snd (find_all_elements t s th w)))
    = fst (find_all_elements t s th w).
Proof.
  split.
  - destruct (find_element_run t s th w) as [m1 ->]. simpl.
    by destruct (find_element_run t s th {| fs := fs w; log := log w ++ map Print m1 |})
      as [m2 ->].
  - destruct (find_all_elements_run t s th w) as [m1 ->]. simpl.
    by destruct (find_all_elements_run t s th
                   {| fs := fs w; log := log w ++ map Print m1 |}) as [m2 ->].
Qed.

(** **** Claim C5.  With both pictures readable, [find_element] returns
    the centre of a place whose score is the highest of the frame when
    that highest score is at or above the threshold, and [None] when every
    score is below it. *)
Theorem find_element_highest_confidence t s th (w : World Image) tpl img :
  fs w !! t = Some (Picture tpl) →
  fs w !! s = Some (Picture img) →
  let res := matchTemplate img tpl in
  ((∃ x y v, Cv2.score_at res x y = Some v ∧ (th <= v)%Q) →
   ∃ x y v,
     Cv2.score_at res x y = Some v ∧ (th <= v)%Q
     ∧ (∀ x' y' v', Cv2.score_at res x' y' = Some v' → (v' <= v)%Q)
     ∧ fst (find_element t s th w)
       = Some (Z.of_nat x + snd (shape tpl) / 2, Z.of_nat y + fst (shape tpl) / 2))
  ∧ ((∀ x y v, Cv2.score_at res x y = Some v → (v < th)%Q) →
     fst (find_element t s th w) = None).
Proof.
  intros Ht Hs res. autounfold with matcher. unfold_monad. simpl.
  rewrite (bool_decide_eq_true_2 (is_Some (fs w !! t))) by eauto. simpl.
  rewrite (bool_decide_eq_true_2 (is_Some (fs w !! s))) by eauto. simpl.
  rewrite Ht, Hs.
  destruct (shape tpl) as [h wd]. simpl.
  pose proof (minMaxLoc_spec (matchTemplate img tpl)) as Hmax.
  fold res in Hmax |- *.
  destruct (Cv2.minMaxLoc res) as [[[mx my] mv]|]; simpl in *.
  - destruct Hmax as [Hat Hall].
    destruct (Qle_bool th mv) eqn:Hle; simpl; split.
    + intros _. exists mx, my, mv. apply Qle_bool_iff in Hle. eauto.
    + intros Hlow. apply Qle_bool_iff in Hle.
      apply Hlow in Hat. by apply Qlt_not_le in Hat.
    + intros (x & y & v & Hv & Hth). exfalso.
      assert (Qle_bool th mv = true); [|congruence].
      apply Qle_bool_iff. eapply Qle_trans; [exact Hth|]. by eapply Hall.
    + done.
  - split; [|done]. intros (x & y & v & Hv & _).
    apply cells_score_at in Hv. rewrite Hmax in Hv. by apply elem_of_nil in Hv.
Qed.

(** A missing template is found out by the query itself, each time it is
    made, and reported as no match. *)
Lemma find_element_missing_template t s th (w : World Image) :
  fs w !! t = None →
  find_element t s th w
  = (None, {| fs := fs w; log := log w ++ [Print (TemplateFileNotFound t)] |}).
Proof.
  intros Ht. autounfold with matcher. unfold_monad. simpl.
  rewrite bool_decide_eq_false_2; [done|]. rewrite Ht. by intros [? ?].
Qed.

Lemma find_all_elements_missing_template t s th (w : World Image) :
  fs w !! t = None →
  find_all_elements t s th w
  = ([], {| fs := fs w; log := log w ++ [Print (TemplateFileNotFound t)] |}).
Proof.
  intros Ht. autounfold with matcher. unfold_monad. simpl.
  rewrite bool_decide_eq_false_2; [done|]. rewrite Ht. by intros [? ?].
Qed.

(** **** Claim C7, as the code has it.  Nothing checks the templates when
    the program starts.  A template file that does not exist is noticed by
    each query for it, while the loops run: [find_element] and
    [find_all_elements] print that the file is missing and return no
    match, whatever the screenshot shows, and change nothing else. *)
Theorem missing_template_is_no_match t s th (w : World Image) :
  fs w !! t = None →
  find_element t s th w
  = (None, {| fs := fs w; log := log w ++ [Print (TemplateFileNotFound t)] |})
  ∧ find_all_elements t s th w
    = ([], {| fs := fs w; log := log w ++ [Print (TemplateFileNotFound t)] |}).
Proof.
  intros Ht. split.
  - by apply find_element_missing_template.
  - by apply find_all_elements_missing_template.
Qed.

(** [groupRectangles] with [groupThreshold = 1] rejects a rectangle that
    stands alone. *)
Lemma groupRectangles_alone (r : Rect) (eps : Q) :
  Cv2.groupRectangles [r] 1 eps = ([], []).
Proof.
  unfold Cv2.groupRectangles. simpl.
  destruct r as [[[x y] wd] h]. by simpl.
Qed.

(** So a template that passes the threshold at one place only is not
    reported by [find_all_elements]. *)
Lemma find_all_elements_single_place t s th (w : World Image) tpl img p :
  fs w !! t = Some (Picture tpl) →
  fs w !! s = Some (Picture img) →
  Cv2.where_ge (matchTemplate img tpl) th = [p] →
  fst (find_all_elements t s th w) = [].
Proof.
  intros Ht Hs Hp. autounfold with matcher. unfold_monad. simpl.
  rewrite (bool_decide_eq_true_2 (is_Some (fs w !! t))) by eauto. simpl.
  rewrite (bool_decide_eq_true_2 (is_Some (fs w !! s))) by eauto. simpl.
  rewrite Ht, Hs.
  destruct (shape tpl) as [h wd]. rewrite Hp. cbn [map].
  by rewrite groupRectangles_alone.
Qed.

End MatcherProperties.

(** ** Rules for running the program *)

Section Rules.

Context {Image : Type}.
Variable shape : Image -> Z * Z.
Variable matchTemplate : Image -> Image -> ScoreMap.
Variable dev : Device Image.

Implicit Types w : World Image.

Lemma wp_ret {A} (a : A) (Q : A -> World Image -> Prop) w :
  Q a w → wp (mret a) Q w.
Proof. done. Qed.

Lemma wp_bind {A B} (m : M Image A) (k : A -> M Image B) Q w :
  wp m (fun a w' => wp (k a) Q w') w → wp (m ≫= k) Q w.
Proof. unfold wp. unfold_monad. by destruct (m w). Qed.

Lemma wp_mono {A} (m : M Image A) (Q Q' : A -> World Image -> Prop) w :
  wp m Q w → (∀ a w', Q a w' → Q' a w') → wp m Q' w.
Proof. unfold wp. auto. Qed.

Lemma wp_print m (Q : unit -> World Image -> Prop) w :
  Q tt {| fs := fs w; log := log w ++ [Print m] |} → wp (print m) Q w.
Proof. done. Qed.

Lemma wp_sleep n (Q : unit -> World Image -> Prop) w :
  Q tt {| fs := fs w; log := log w ++ [Sleep n] |} → wp (sleep n) Q w.
Proof. done. Qed.

(** One call of [take_screenshot] runs adb once, whatever the result. *)
Lemma wp_take_screenshot p (Q : bool -> World Image -> Prop) w :
  match screencap dev (log w) with
  | Exited true out =>
      Q true {| fs := <[p := out]> (fs w);
                log := log w ++ [Screencap true; Print (ScreenshotSaved p)] |}
  | Exited false out =>
      Q false {| fs := <[p := out]> (fs w);
                 log := log w ++ [Screencap false; Print ErrorTakingScreenshot] |}
  | NoAdb =>
      Q false {| fs := <[p := Unreadable]> (fs w);
                 log := log w ++ [Screencap false; Print AdbNotFound] |}
  end →
  wp (take_screenshot dev p) Q w.
Proof.
  unfold wp. autounfold with bridge. unfold_monad.
  destruct (screencap dev (log w)) as [[|] out|]; simpl; by rewrite <- app_assoc.
Qed.

Lemma wp_find_element t (Q : option (Z * Z) -> World Image -> Prop) w :
  (∀ msgs, Q (found shape matchTemplate t (fs w))
             {| fs := fs w; log := log w ++ map Print msgs |}) →
  wp (find_element shape matchTemplate t screen_png default_threshold) Q w.
Proof.
  intros HQ. unfold wp.
  destruct (find_element_run shape matchTemplate t screen_png default_threshold w)
    as [msgs ->].
  apply HQ.
Qed.

Lemma wp_find_all_elements t (Q : list (Z * Z) -> World Image -> Prop) w :
  (∀ msgs, Q (found_all shape matchTemplate t (fs w))
             {| fs := fs w; log := log w ++ map Print msgs |}) →
  wp (find_all_elements shape matchTemplate t screen_png default_threshold) Q w.
Proof.
  intros HQ. unfold wp.
  destruct (find_all_elements_run shape matchTemplate t screen_png default_threshold w)
    as [msgs ->].
  apply HQ.
Qed.

(** A tap is sent once; its result is all that depends on the bridge. *)
Lemma wp_tap_element why x y (Q : bool -> World Image -> Prop) w :
  (∀ b msgs, Q b {| fs := fs w; log := log w ++ Tap why x y :: map Print msgs |}) →
  wp (tap_element dev why x y) Q w.
Proof.
  intros HQ. unfold wp. autounfold with bridge. unfold_monad.
  destruct (input dev (log w)); simpl.
  - apply (HQ true []).
  - rewrite <- app_assoc. apply (HQ false [ErrorTappingElement]).
Qed.

Lemma wp_scroll x1 y1 x2 y2 d (Q : bool -> World Image -> Prop) w :
  (∀ b, Q b {| fs := fs w; log := log w ++ [Swipe x1 y1 x2 y2 d] |}) →
  wp (scroll dev x1 y1 x2 y2 d) Q w.
Proof.
  intros HQ. unfold wp. autounfold with bridge. unfold_monad.
  destruct (input dev (log w)); simpl; apply HQ.
Qed.

(** A loop that keeps an invariant: it holds after the loop, with the
    number of iterations made and whether the loop ran to its end. *)
Lemma wp_for_range (I : nat -> World Image -> Prop) (body : M Image Flow) n
  (Q : bool -> World Image -> Prop) :
  (∀ k w, k < n → I k w →
     wp body (fun f w' =>
                match f with
                | Continue => I (S k) w'
                | Break => Q false w'
                end) w)%nat →
  (∀ w, I n w → Q true w) →
  ∀ w, I O w → wp (for_range n body) Q w.
Proof.
  intros Hbody Hend.
  assert (Hgen : ∀ m k w, (k + m = n)%nat → I k w → wp (for_range m body) Q w).
  { induction m as [|m IH]; intros k w Hk HI; simpl.
    - apply wp_ret, Hend. by replace n with k by lia.
    - apply wp_bind. eapply wp_mono; [apply (Hbody k); [lia|done]|].
      intros [|] w' HQ; simpl.
      + apply (IH (S k)); [lia|done].
      + by apply wp_ret. }
  intros w HI. by apply (Hgen n O).
Qed.

Lemma for_range_break (body : M Image Flow) n w :
  fst (body w) = Break → for_range (S n) body w = (false, snd (body w)).
Proof. simpl. unfold_monad. by destruct (body w) as [[|] w']. Qed.

End Rules.

#[global] Arguments wp : simpl never.

(** Take one step of a computation with the rule that fits it. *)
Ltac wp_step :=
  lazymatch goal with
  | |- wp (mret _) _ _ => apply wp_ret
  | |- wp (_ ≫= _) _ _ => apply wp_bind
  | |- wp (print _) _ _ => apply wp_print
  | |- wp (sleep _) _ _ => apply wp_sleep
  | |- wp (take_screenshot _ _) _ _ => apply wp_take_screenshot
  | |- wp (find_element _ _ _ _ _) _ _ => apply wp_find_element; intros ?
  | |- wp (find_all_elements _ _ _ _ _) _ _ => apply wp_find_all_elements; intros ?
  | |- wp (tap_element _ _ _ _) _ _ => apply wp_tap_element; intros ? ?
  | |- wp (scroll _ _ _ _ _ _) _ _ => apply wp_scroll; intros ?
  | |- wp (scroll_down_one_picture _ _) _ _ =>
      unfold scroll_down_one_picture; apply wp_scroll; intros ?
  | |- wp (scroll_down_one_entry _ _) _ _ =>
      unfold scroll_down_one_entry; apply wp_scroll; intros ?
  end.

Ltac wp_run := repeat first [wp_step | progress simpl].

(** A name is one of the six templates. *)
Ltac glyph :=
  unfold glyphs; repeat first [apply list_elem_of_here | apply list_elem_of_further].

(** Normalise the projections of a log that grew by known events. *)
Ltac norm_logs := simpl; repeat (progress (autorewrite with logs; simpl)).

Ltac solve_logs :=
  norm_logs; rewrite <- ?app_assoc; simpl; repeat split; try done.

(** ** One entry *)

Section EntryProperties.

Context {Image : Type}.
Variable shape : Image -> Z * Z.
Variable matchTemplate : Image -> Image -> ScoreMap.
Variable dev : Device Image.

Implicit Types w : World Image.

Local Abbreviation take_screenshot := (take_screenshot dev).
Local Abbreviation found := (found shape matchTemplate).
Local Abbreviation found_all := (found_all shape matchTemplate).
Local Abbreviation entry_iteration := (entry_iteration shape matchTemplate dev).
Local Abbreviation back_iteration := (back_iteration shape matchTemplate dev).
Local Abbreviation entry_loop := (entry_loop shape matchTemplate dev).
Local Abbreviation back_loop := (back_loop shape matchTemplate dev).
Local Abbreviation download_all_photos_from_entry :=
  (download_all_photos_from_entry shape matchTemplate dev).

Lemma take_screenshot_eq p w :
  take_screenshot p w
  = match screencap dev (log w) with
    | Exited true out =>
        (true, {| fs := <[p := out]> (fs w);
                  log := log w ++ [Screencap true; Print (ScreenshotSaved p)] |})
    | Exited false out =>
        (false, {| fs := <[p := out]> (fs w);
                   log := log w ++ [Screencap false; Print ErrorTakingScreenshot] |})
    | NoAdb =>
        (false, {| fs := <[p := Unreadable]> (fs w);
                   log := log w ++ [Screencap false; Print AdbNotFound] |})
    end.
Proof.
  autounfold with bridge. unfold_monad.
  destruct (screencap dev (log w)) as [[|] out|]; simpl; by rewrite <- app_assoc.
Qed.

(** The taps of the end of an entry: one per match, each followed by its
    pause, or nothing at all in a dry run. *)
Lemma wp_download_each dry_run (coords : list (Z * Z)) w :
  wp (for_each coords (fun c =>
        if negb dry_run then
          print (DownloadingImageAt (fst c) (snd c));;
          tap_element dev Download (fst c) (snd c);;
          sleep 1
        else mret tt))
     (fun _ w' =>
        fs w' = fs w
        ∧ captures (log w') = captures (log w)
        ∧ back_taps (log w') = back_taps (log w)
        ∧ gestures (log w')
          = gestures (log w)
            ++ (if dry_run then []
                else flat_map (fun c => [Tap Download (fst c) (snd c); Sleep 1]) coords))
     w.
Proof.
  revert w. induction coords as [|c coords IH]; intros w; simpl.
  - apply wp_ret. destruct dry_run; by rewrite app_nil_r.
  - apply wp_bind. destruct dry_run; simpl.
    + apply wp_ret. apply IH.
    + wp_run. eapply wp_mono; [apply IH|].
      intros _ w' (Hfs & Hcap & Hback & Hg). simpl in *.
      rewrite Hcap, Hback, Hg. by solve_logs.
Qed.

(** An iteration in which the close-photo and end-of-entry glyphs are
    both absent. *)
Lemma wp_scanning dry_run w out :
  screencap dev (log w) = Exited true out →
  found "closepic.png" (<[screen_png := out]> (fs w)) = None →
  found "add_your_comment.png" (<[screen_png := out]> (fs w)) = None →
  wp (entry_iteration dry_run)
     (fun f w' =>
        f = Continue
        ∧ fs w' = <[screen_png := out]> (fs w)
        ∧ commands (log w')
          = commands (log w)
            ++ Screencap true
               :: match found_all "download.png" (<[screen_png := out]> (fs w)) with
                  | (x, y) :: _ =>
                      (if dry_run then [] else [Tap Download x y])
                      ++ [Swipe 500 y 500 495 1000]
                  | [] => [Swipe 500 2200 500 495 1000]
                  end
        ∧ gestures (log w')
          = gestures (log w)
            ++ match found_all "download.png" (<[screen_png := out]> (fs w)) with
               | (x, y) :: _ =>
                   (if dry_run then [] else [Tap Download x y; Sleep 1])
                   ++ [Swipe 500 y 500 495 1000]
               | [] => [Swipe 500 2200 500 495 1000]
               end)
     w.
Proof.
  intros Hcap Hclose Hend.
  autounfold with machine. wp_run. rewrite Hcap.
  wp_run. rewrite Hclose.
  wp_run. rewrite Hend.
  wp_run.
  destruct (found_all "download.png" (<[screen_png:=out]> (fs w))) as [|[x y] rest].
  - wp_run. by solve_logs.
  - destruct dry_run; wp_run; by solve_logs.
Qed.

(** **** Claim C9.  In an iteration whose screenshot shows neither the
    close-photo glyph nor the end-of-entry glyph, the loop goes on, and
    the gestures of the iteration are: with download matches on the
    screen, a tap on the first one and its pause (not in a dry run), then
    a swipe from the height of that first match up to 495; with none, the
    swipe from 2200 up to 495. *)
Theorem scanning_iteration dry_run w :
  let w1 := snd (take_screenshot screen_png w) in
  let r := entry_iteration dry_run w in
  fst (take_screenshot screen_png w) = true →
  found "closepic.png" (fs w1) = None →
  found "add_your_comment.png" (fs w1) = None →
  fst r = Continue
  ∧ gestures (log (snd r))
    = gestures (log w)
      ++ match found_all "download.png" (fs w1) with
         | (x, y) :: _ =>
             (if dry_run then [] else [Tap Download x y; Sleep 1])
             ++ [Swipe 500 y 500 495 1000]
         | [] => [Swipe 500 2200 500 495 1000]
         end.
Proof.
  intros w1 r. subst w1 r. rewrite take_screenshot_eq.
  destruct (screencap dev (log w)) as [[|] out|] eqn:Hcap; simpl; try done.
  intros _ Hclose Hend.
  pose proof (wp_scanning dry_run w out Hcap Hclose Hend) as H.
  unfold wp in H. tauto.
Qed.

(** An iteration that sees the end-of-entry glyph and no close-photo
    glyph. *)
Lemma wp_entry_end dry_run w out c :
  screencap dev (log w) = Exited true out →
  found "closepic.png" (<[screen_png := out]> (fs w)) = None →
  found "add_your_comment.png" (<[screen_png := out]> (fs w)) = Some c →
  wp (entry_iteration dry_run)
     (fun f w' =>
        f = Break
        ∧ fs w' = <[screen_png := out]> (fs w)
        ∧ captures (log w') = captures (log w) ++ [Screencap true]
        ∧ gestures (log w')
          = gestures (log w)
            ++ (if dry_run then []
                else flat_map (fun c => [Tap Download (fst c) (snd c); Sleep 1])
                       (found_all "download.png" (<[screen_png := out]> (fs w)))))
     w.
Proof.
  intros Hcap Hclose Hend.
  autounfold with machine. wp_run. rewrite Hcap.
  wp_run. rewrite Hclose.
  wp_run. rewrite Hend.
  wp_run. eapply wp_mono; [apply wp_download_each|].
  intros _ w' (Hfs & Hc & _ & Hg). wp_run. simpl in *.
  rewrite Hfs, Hc, Hg. by solve_logs.
Qed.

(** **** Claim C3.  In an iteration whose screenshot shows the
    end-of-entry glyph and no close-photo glyph, the download matches on
    that screenshot are each tapped once, in order, every tap followed by
    its pause of one second (none is tapped in a dry run); these are all
    the gestures of the iteration, and the loop over the entry ends with
    it, whatever number of iterations was left. *)
Theorem entry_end_iteration dry_run w n :
  let w1 := snd (take_screenshot screen_png w) in
  let r := entry_iteration dry_run w in
  fst (take_screenshot screen_png w) = true →
  found "closepic.png" (fs w1) = None →
  is_Some (found "add_your_comment.png" (fs w1)) →
  fst r = Break
  ∧ gestures (log (snd r))
    = gestures (log w)
      ++ (if dry_run then []
          else flat_map (fun c => [Tap Download (fst c) (snd c); Sleep 1])
                 (found_all "download.png" (fs w1)))
  ∧ for_range (S n) (entry_iteration dry_run) w = (false, snd r).
Proof.
  intros w1 r. subst w1 r. rewrite take_screenshot_eq.
  destruct (screencap dev (log w)) as [[|] out|] eqn:Hcap; simpl; try done.
  intros _ Hclose [c Hend].
  pose proof (wp_entry_end dry_run w out c Hcap Hclose Hend) as H.
  unfold wp in H. destruct H as (Hf & _ & _ & Hg).
  split; [done|]. split; [done|]. by apply for_range_break.
Qed.

Lemma wp_back_loop w :
  wp back_loop
     (fun fin w' => ∃ k last, back_pass_shape shape matchTemplate w w' fin k last) w.
Proof.
  autounfold with loops.
  apply (wp_for_range
           (fun k w' => commands (log w')
                        = commands (log w) ++ repeat (Screencap true) k)).
  - intros k w1 Hk HI. autounfold with machine. wp_run.
    destruct (screencap dev (log w1)) as [[|] out|]; wp_run.
    + destruct (found "back.png" (<[screen_png:=out]> (fs w1))) as [[x y]|] eqn:Hb;
        wp_run.
      * exists k, [Screencap true; Tap GoBack x y]. split.
        -- norm_logs. rewrite HI. by rewrite <- !app_assoc.
        -- right. right. split; [lia|]. split; [done|]. simpl. eauto.
      * norm_logs. rewrite HI, <- app_assoc. by rewrite repeat_cons.
    + exists k, [Screencap false]. split.
      * norm_logs. rewrite HI. by rewrite <- !app_assoc.
      * right. left. split; [lia|done].
    + exists k, [Screencap false]. split.
      * norm_logs. rewrite HI. by rewrite <- !app_assoc.
      * right. left. split; [lia|done].
  - intros w1 HI. exists 5%nat, []. split; [by rewrite HI, app_nil_r|]. by left.
  - simpl. by rewrite app_nil_r.
Qed.

Lemma captures_repeat k : captures (repeat (Screencap true) k) = repeat (Screencap true) k.
Proof. induction k as [|k IH]; simpl; [done|]. by rewrite IH. Qed.

Lemma taps_repeat k : taps (repeat (Screencap true) k) = [].
Proof. by induction k. Qed.

Lemma back_taps_repeat k : back_taps (repeat (Screencap true) k) = [].
Proof. by induction k. Qed.

(** The loop over the photos of an entry never taps the back glyph. *)
Lemma wp_entry_iteration_no_back dry_run w :
  wp (entry_iteration dry_run)
     (fun _ w' => back_taps (log w') = back_taps (log w)) w.
Proof.
  autounfold with machine. wp_run.
  destruct (screencap dev (log w)) as [[|] out|]; wp_run; try by solve_logs.
  destruct (found "closepic.png" _) as [[x y]|]; wp_run; [by solve_logs|].
  destruct (found "add_your_comment.png" _) as [c|]; wp_run.
  - eapply wp_mono; [apply wp_download_each|].
    intros u w' (_ & _ & Hback & _). wp_run. rewrite Hback. by solve_logs.
  - destruct (found_all "download.png" _) as [|[x y] rest];
      [|destruct dry_run]; wp_run; by solve_logs.
Qed.

Lemma wp_entry_loop_no_back dry_run w :
  wp (entry_loop dry_run) (fun _ w' => back_taps (log w') = back_taps (log w)) w.
Proof.
  autounfold with loops.
  apply (wp_for_range (fun _ w' => back_taps (log w') = back_taps (log w))).
  - intros k w1 _ HI.
    eapply wp_mono; [apply wp_entry_iteration_no_back|].
    intros [|] w' Hback; by rewrite Hback.
  - done.
  - done.
Qed.

(** **** Claim C10.  The pass that goes back to the list sends, after
    what was sent before it, [k] successful captures that did not show the
    back glyph and then: nothing more, having made all 5 attempts; or one
    failed capture, fewer than 5 attempts having been made before it; or
    one more successful capture and one tap on the back glyph it shows,
    fewer than 5 attempts having been made before.  So it captures at most
    5 times, taps at most once, and sends nothing after a tap or after a
    failed capture; and [download_all_photos_from_entry] as a whole taps
    the back glyph at most once. *)
Theorem back_pass_taps_once dry_run w :
  (∃ (k : nat) (last : list Event),
     commands (log (snd (back_loop w)))
     = commands (log w) ++ repeat (Screencap true) k ++ last
     ∧ ((k = 5%nat ∧ last = [] ∧ fst (back_loop w) = true)
        ∨ ((k < 5)%nat ∧ last = [Screencap false] ∧ fst (back_loop w) = false)
        ∨ ((k < 5)%nat ∧ fst (back_loop w) = false
           ∧ ∃ x y, last = [Screencap true; Tap GoBack x y]
                    ∧ found "back.png" (fs (snd (back_loop w))) = Some (x, y)))
     ∧ (length (captures (repeat (Screencap true) k ++ last)) <= 5)%nat
     ∧ (length (taps (repeat (Screencap true) k ++ last)) <= 1)%nat)
  ∧ (length (back_taps (log (snd (download_all_photos_from_entry dry_run w))))
     <= length (back_taps (log w)) + 1)%nat.
Proof.
  split.
  - destruct (wp_back_loop w) as (k & last & Hlog & Hcases). exists k, last.
    split; [done|]. split; [done|].
    rewrite captures_app, taps_app, captures_repeat, taps_repeat, length_app,
      repeat_length.
    destruct Hcases as [(-> & -> & _)|[(Hk & -> & _)|(Hk & _ & x & y & -> & _)]];
      simpl; lia.
  - assert (H : wp (download_all_photos_from_entry dry_run)
              (fun _ w' => (length (back_taps (log w'))
                            <= length (back_taps (log w)) + 1)%nat) w); [|done].
    autounfold with machine. apply wp_bind.
    eapply wp_mono; [apply wp_entry_loop_no_back|]. intros fin1 w1 Hentry.
    apply wp_bind. eapply wp_mono; [apply wp_back_loop|].
    intros fin w2 (k & last & Hlog & Hcases). apply wp_ret.
    rewrite <- (back_taps_commands (log w2)), Hlog, !back_taps_app,
      back_taps_commands, back_taps_repeat, Hentry, !length_app.
    destruct Hcases as [(_ & -> & _)|[(_ & -> & _)|(_ & _ & x & y & -> & _)]];
      simpl; lia.
Qed.

End EntryProperties.

(** ** The walk over the list *)

Section WalkerProperties.

Context {Image : Type}.
Variable shape : Image -> Z * Z.
Variable matchTemplate : Image -> Image -> ScoreMap.
Variable dev : Device Image.

Implicit Types w : World Image.

Local Abbreviation found := (found shape matchTemplate).
Local Abbreviation found_all := (found_all shape matchTemplate).
Local Abbreviation entry_iteration := (entry_iteration shape matchTemplate dev).
Local Abbreviation entry_loop := (entry_loop shape matchTemplate dev).
Local Abbreviation back_loop := (back_loop shape matchTemplate dev).
Local Abbreviation download_all_photos_from_entry :=
  (download_all_photos_from_entry shape matchTemplate dev).
Local Abbreviation main_iteration := (main_iteration shape matchTemplate dev).
Local Abbreviation main_loop := (main_loop shape matchTemplate dev).
Local Abbreviation main := (main shape matchTemplate dev).

(** **** Claim C2.  When every capture succeeds and shows none of the
    glyphs, the loop over an entry runs to the end of its 100 iterations,
    each one a capture followed by the swipe from 2200 up to 495, and the
    walk over the list stops in its first iteration, after two captures,
    on finding no right arrow. *)
Theorem no_match_bounded_termination dry_run w :
  (∀ l, ∃ out,
      screencap dev l = Exited true out
      ∧ ∀ t, t ∈ glyphs →
             found t (<[screen_png := out]> (fs w)) = None
             ∧ found_all t (<[screen_png := out]> (fs w)) = []) →
  (fst (entry_loop dry_run w) = true
   ∧ commands (log (snd (entry_loop dry_run w)))
     = commands (log w)
       ++ concat (repeat [Screencap true; Swipe 500 2200 500 495 1000] 100))
  ∧ (fst (main_iteration dry_run w) = Break
     ∧ main_loop dry_run w = (false, snd (main_iteration dry_run w))
     ∧ commands (log (snd (main_loop dry_run w)))
       = commands (log w) ++ [Screencap true; Screencap true]
     ∧ last (log (snd (main_loop dry_run w))) = Some (Print NoRightArrowsFound)).
Proof.
  intros Hblank.
  assert (Hglyph : ∀ t l out, t ∈ glyphs → screencap dev l = Exited true out →
            found t (<[screen_png := out]> (fs w)) = None
            ∧ found_all t (<[screen_png := out]> (fs w)) = []).
  { intros t l out Ht Hout. destruct (Hblank l) as (out' & Hout' & Hall).
    rewrite Hout in Hout'. injection Hout' as <-. by apply Hall. }
  split.
  - assert (Hloop : wp (entry_loop dry_run)
              (fun fin w' =>
                 fin = true
                 ∧ commands (log w')
                   = commands (log w)
                     ++ concat (repeat [Screencap true; Swipe 500 2200 500 495 1000] 100))
              w); [|done].
    autounfold with loops.
    apply (wp_for_range
             (fun k w' =>
                (∀ o, <[screen_png := o]> (fs w') = <[screen_png := o]> (fs w))
                ∧ commands (log w')
                  = commands (log w)
                    ++ concat (repeat [Screencap true; Swipe 500 2200 500 495 1000] k))).
    + intros k w1 Hk [Hfs Hcmd].
      destruct (Hblank (log w1)) as (out & Hout & _).
      destruct (Hglyph "closepic.png" _ _ ltac:(glyph) Hout) as [Hclose _].
      destruct (Hglyph "add_your_comment.png" _ _ ltac:(glyph) Hout) as [Hend _].
      destruct (Hglyph "download.png" _ _ ltac:(glyph) Hout) as [_ Hdown].
      rewrite <- Hfs in Hclose, Hend, Hdown.
      eapply wp_mono; [by apply (wp_scanning shape matchTemplate dev dry_run w1 out)|].
      intros f w' (-> & Hfs' & Hcmd' & _). rewrite Hdown in Hcmd'. split.
      * intros o. by rewrite Hfs', insert_insert_eq.
      * rewrite Hcmd', Hcmd, <- app_assoc. f_equal.
        replace (S k) with (k + 1)%nat by lia.
        by rewrite repeat_app, concat_app.
    + by intros w1 [_ Hcmd].
    + split; [done|]. simpl. by rewrite app_nil_r.
  - assert (Hiter : wp (main_iteration dry_run)
              (fun f w' =>
                 f = Break
                 ∧ commands (log w') = commands (log w) ++ [Screencap true; Screencap true]
                 ∧ last (log w') = Some (Print NoRightArrowsFound))
              w).
    { autounfold with machine. wp_run.
      destruct (Hblank (log w)) as (out & Hout & _). rewrite Hout. wp_run.
      destruct (Hglyph "loadmore.png" _ _ ltac:(glyph) Hout) as [-> _]. wp_run.
      match goal with
      | |- match screencap dev ?l with _ => _ end =>
          destruct (Hblank l) as (out2 & Hout2 & _); rewrite Hout2
      end.
      wp_run. rewrite insert_insert_eq.
      destruct (Hglyph "right.png" _ _ ltac:(glyph) Hout2) as [_ ->]. wp_run.
      split; [done|]. split; [by solve_logs|]. apply last_snoc. }
    unfold wp in Hiter. destruct Hiter as (Hf & Hcmd & Hlast).
    autounfold with loops.
    change 10000%nat with (S 9999).
    rewrite (for_range_break _ _ _ Hf). by simpl.
Qed.

End WalkerProperties.

(** ** Dry run against real run *)

Section DryRun.

Context {Image : Type}.
Variable shape : Image -> Z * Z.
Variable matchTemplate : Image -> Image -> ScoreMap.
Variable dev : Device Image.

(** The run is scripted: what a capture delivers depends only on how many
    captures were made before it. *)
Variable script : nat -> Capture Image.
Hypothesis scripted : ∀ l, screencap dev l = script (length (captures l)).

Variable l0 : list Event.

Implicit Types w wd wr : World Image.

Local Abbreviation sim := (sim (Image := Image) l0).
Local Abbreviation any := (fun _ _ => True).

Lemma sim_ret {A} (V : A -> A -> Prop) a1 a2 : V a1 a2 → sim V (mret a1) (mret a2).
Proof. by intros HV wd wr HR. Qed.

Lemma sim_bind {A B} (V : A -> A -> Prop) (V' : B -> B -> Prop)
  (md mr : M Image A) (kd kr : A -> M Image B) :
  sim V md mr →
  (∀ a1 a2, V a1 a2 → sim V' (kd a1) (kr a2)) →
  sim V' (md ≫= kd) (mr ≫= kr).
Proof.
  intros Hm Hk wd wr HR. destruct (Hm wd wr HR) as [HV HR'].
  unfold_monad. destruct (md wd) as [a1 wd'], (mr wr) as [a2 wr']. simpl in *.
  by apply Hk.
Qed.

(** An event that is no capture and counts the same on both sides. *)
Lemma aligned_emit e wd wr :
  is_capture e = false → is_download_tap e = false →
  aligned l0 wd wr →
  aligned l0 {| fs := fs wd; log := log wd ++ [e] |}
             {| fs := fs wr; log := log wr ++ [e] |}.
Proof.
  intros Hc Hd (Hfs & Hcap & Hnav & Hdl). unfold aligned. norm_logs.
  unfold captures, navigation, downloads in *. simpl. rewrite Hc, Hd.
  rewrite !app_nil_r, Hnav. done.
Qed.

(** Messages change nothing that is compared. *)
Lemma aligned_prints md mr wd wr :
  aligned l0 wd wr →
  aligned l0 {| fs := fs wd; log := log wd ++ map Print md |}
             {| fs := fs wr; log := log wr ++ map Print mr |}.
Proof. intros (Hfs & Hcap & Hnav & Hdl). unfold aligned. by norm_logs. Qed.

Lemma sim_print_both md mr : sim eq (print md) (print mr).
Proof.
  intros wd wr HR. split; [done|].
  apply (aligned_prints [md] [mr] _ _ HR).
Qed.

Lemma sim_sleep n : sim eq (sleep n) (sleep n).
Proof. intros wd wr HR. split; [done|]. by apply aligned_emit. Qed.

Lemma sim_take_screenshot p : sim eq (take_screenshot dev p) (take_screenshot dev p).
Proof.
  intros wd wr HR. rewrite !take_screenshot_eq, !scripted.
  destruct HR as (Hfs & Hcap & Hnav & Hdl). rewrite Hcap, Hfs.
  destruct (script _) as [[|] out|]; simpl; (split; [done|]);
    unfold aligned; norm_logs; rewrite !length_app, Hcap; done.
Qed.

Lemma sim_find_element t :
  sim eq (find_element shape matchTemplate t screen_png default_threshold)
         (find_element shape matchTemplate t screen_png default_threshold).
Proof.
  intros wd wr HR.
  destruct (find_element_run shape matchTemplate t screen_png default_threshold wd)
    as [md ->].
  destruct (find_element_run shape matchTemplate t screen_png default_threshold wr)
    as [mr ->].
  simpl. split; [by rewrite (proj1 HR)|]. by apply aligned_prints.
Qed.

Lemma sim_find_all_elements t :
  sim eq (find_all_elements shape matchTemplate t screen_png default_threshold)
         (find_all_elements shape matchTemplate t screen_png default_threshold).
Proof.
  intros wd wr HR.
  destruct (find_all_elements_run shape matchTemplate t screen_png default_threshold wd)
    as [md ->].
  destruct (find_all_elements_run shape matchTemplate t screen_png default_threshold wr)
    as [mr ->].
  simpl. split; [by rewrite (proj1 HR)|]. by apply aligned_prints.
Qed.

(** A tap that is not a download is sent in both runs; whether it
    succeeds may differ, and nobody looks. *)
Lemma sim_tap_element why x y :
  why ≠ Download → sim any (tap_element dev why x y) (tap_element dev why x y).
Proof.
  intros Hwhy wd wr HR. split; [done|].
  assert (Hd : wp (tap_element dev why x y)
            (fun _ w' => ∃ msgs, w' = {| fs := fs wd;
                                        log := (log wd ++ [Tap why x y]) ++ map Print msgs |})
            wd).
  { apply wp_tap_element. intros b msgs. exists msgs. by rewrite <- app_assoc. }
  assert (Hr : wp (tap_element dev why x y)
            (fun _ w' => ∃ msgs, w' = {| fs := fs wr;
                                        log := (log wr ++ [Tap why x y]) ++ map Print msgs |})
            wr).
  { apply wp_tap_element. intros b msgs. exists msgs. by rewrite <- app_assoc. }
  unfold wp in Hd, Hr. destruct Hd as [md ->], Hr as [mr ->].
  apply (aligned_prints md mr {| fs := fs wd; log := log wd ++ [Tap why x y] |}
                              {| fs := fs wr; log := log wr ++ [Tap why x y] |}).
  apply aligned_emit; [done| by destruct why |done].
Qed.

Lemma sim_scroll x1 y1 x2 y2 d :
  sim any (scroll dev x1 y1 x2 y2 d) (scroll dev x1 y1 x2 y2 d).
Proof.
  intros wd wr HR. split; [done|].
  autounfold with bridge. unfold_monad.
  destruct (input dev (log wd)), (input dev (log wr)); simpl; by apply aligned_emit.
Qed.

(** What the dry run leaves out: the message, the download tap and its
    pause. *)
Lemma sim_download x y :
  sim eq (mret tt)
         (print (DownloadingImageAt x y);; tap_element dev Download x y;; sleep 1).
Proof.
  intros wd wr HR.
  assert (Hr : wp (print (DownloadingImageAt x y);; tap_element dev Download x y;; sleep 1)
            (fun _ w' => fs w' = fs wr
                         ∧ captures (log w') = captures (log wr)
                         ∧ navigation (log w') = navigation (log wr))
            wr).
  { wp_run. by solve_logs. }
  unfold wp in Hr. destruct Hr as (Hfs & Hcap & Hnav).
  match goal with |- ?a = ?b ∧ _ => split; [by destruct a, b|] end.
  destruct HR as (Hfs' & Hcap' & Hnav' & Hdl). unfold aligned. simpl.
  by rewrite Hfs, Hcap, Hnav.
Qed.

(** One step of both runs, by the rule that fits; [sim_read v] names the
    value both runs obtained. *)
Ltac sim_step :=
  first
    [ apply sim_ret; done
    | eapply sim_bind; [apply sim_tap_element; done | intros _ _ _]
    | eapply sim_bind; [apply sim_scroll | intros _ _ _]
    | eapply sim_bind; [apply sim_sleep | intros _ _ _]
    | eapply sim_bind; [apply sim_print_both | intros _ _ _] ].

Ltac sim_read v :=
  first
    [ eapply sim_bind; [apply sim_take_screenshot | intros v ? <-]
    | eapply sim_bind; [apply sim_find_element | intros v ? <-]
    | eapply sim_bind; [apply sim_find_all_elements | intros v ? <-] ].

Lemma sim_for_range n (bd br : M Image Flow) :
  sim eq bd br → sim eq (for_range n bd) (for_range n br).
Proof.
  intros Hb. induction n as [|n IH]; simpl.
  - by apply sim_ret.
  - eapply sim_bind; [exact Hb|]. intros f ? <-. destruct f; [exact IH|by apply sim_ret].
Qed.

Lemma sim_download_each (coords : list (Z * Z)) :
  sim eq
    (for_each coords (fun c =>
       if negb true then
         print (DownloadingImageAt (fst c) (snd c));;
         tap_element dev Download (fst c) (snd c);;
         sleep 1
       else mret tt))
    (for_each coords (fun c =>
       if negb false then
         print (DownloadingImageAt (fst c) (snd c));;
         tap_element dev Download (fst c) (snd c);;
         sleep 1
       else mret tt)).
Proof.
  induction coords as [|c coords IH]; simpl.
  - by apply sim_ret.
  - eapply sim_bind; [apply sim_download|]. intros _ _ _. exact IH.
Qed.

Lemma sim_entry_iteration :
  sim eq (entry_iteration shape matchTemplate dev true)
         (entry_iteration shape matchTemplate dev false).
Proof.
  autounfold with machine. sim_read ok. destruct ok; simpl; [|repeat sim_step].
  sim_read coord. destruct coord as [[x y]|]; [repeat sim_step|].
  sim_read coord. destruct coord as [c|].
  - sim_read coords. eapply sim_bind; [apply sim_download_each|]. intros _ _ _.
    by apply sim_ret.
  - sim_read coords. destruct coords as [|c0 rest].
    + repeat sim_step.
    + eapply sim_bind; [apply sim_download|]. intros _ _ _.
      unfold scroll_down_one_picture. repeat sim_step.
Qed.

Lemma sim_back_iteration :
  sim eq (back_iteration shape matchTemplate dev) (back_iteration shape matchTemplate dev).
Proof.
  autounfold with machine. sim_read ok. destruct ok; simpl; [|repeat sim_step].
  sim_step. sim_read coord. destruct coord as [[x y]|]; repeat sim_step.
Qed.

Lemma sim_download_all_photos_from_entry :
  sim eq (download_all_photos_from_entry shape matchTemplate dev true)
         (download_all_photos_from_entry shape matchTemplate dev false).
Proof.
  autounfold with machine. autounfold with loops.
  eapply sim_bind; [apply sim_for_range, sim_entry_iteration|]. intros ? ? _.
  eapply sim_bind; [apply sim_for_range, sim_back_iteration|]. intros ? ? _.
  by apply sim_ret.
Qed.

Lemma sim_main_iteration :
  sim eq (main_iteration shape matchTemplate dev true)
         (main_iteration shape matchTemplate dev false).
Proof.
  unfold main_iteration. sim_read ok.
  eapply (sim_bind eq).
  { destruct ok; [|by apply sim_ret]. sim_read coord. by apply sim_ret. }
  intros at_end ? <-. destruct at_end; [by apply sim_ret|].
  sim_read ok2. destruct ok2; [|by apply sim_ret].
  sim_read coords. destruct coords as [|c0 rest]; [repeat sim_step|].
  sim_step. sim_step.
  eapply sim_bind; [apply sim_download_all_photos_from_entry|]. intros _ _ _.
  unfold scroll_down_one_entry. repeat sim_step.
Qed.

Lemma sim_main :
  sim eq (main shape matchTemplate dev true) (main shape matchTemplate dev false).
Proof.
  unfold main. simpl.
  eapply (sim_bind eq).
  { intros wd wr (Hfs & Hcap & Hnav & Hdl). split; [done|].
    unfold aligned. unfold_monad. by norm_logs. }
  intros _ _ _. autounfold with loops.
  eapply sim_bind; [apply sim_for_range, sim_main_iteration|]. intros ? ? _.
  by apply sim_ret.
Qed.

End DryRun.

(** **** Claim C1.  In a scripted run, where what a capture delivers
    depends only on how many captures came before, the dry run sends no
    download tap at all, and its navigation gestures (every scroll, and
    the taps that open an entry, close a photo and go back) are those of
    the real run, the same gestures in the same order. *)
Theorem dry_run_withholds_downloads {Image} (shape : Image -> Z * Z)
  (matchTemplate : Image -> Image -> ScoreMap) (dev : Device Image)
  (script : nat -> Capture Image) (w : World Image) :
  (∀ l, screencap dev l = script (length (captures l))) →
  let dry := log (snd (main shape matchTemplate dev true w)) in
  let real := log (snd (main shape matchTemplate dev false w)) in
  downloads dry = downloads (log w) ∧ navigation dry = navigation real.
Proof.
  intros Hscript dry real.
  destruct (sim_main shape matchTemplate dev script Hscript (log w) w w)
    as [_ (_ & _ & Hnav & Hdl)]; [done|].
  by split.
Qed.

(** ** When the capture fails *)

Section CaptureFailure.

Context {Image : Type}.
Variable shape : Image -> Z * Z.
Variable matchTemplate : Image -> Image -> ScoreMap.
Variable dev : Device Image.

Implicit Types w : World Image.

Local Abbreviation entry_iteration := (entry_iteration shape matchTemplate dev).
Local Abbreviation back_iteration := (back_iteration shape matchTemplate dev).
Local Abbreviation entry_loop := (entry_loop shape matchTemplate dev).
Local Abbreviation back_loop := (back_loop shape matchTemplate dev).
Local Abbreviation main_iteration := (main_iteration shape matchTemplate dev).
Local Abbreviation main_loop := (main_loop shape matchTemplate dev).






End CaptureFailure.

(** ** The properties on the synthetic bridge *)

Section Examples.

Import Demo.

Local Abbreviation find_element := (find_element shape matchTemplate).
Local Abbreviation find_all_elements := (find_all_elements shape matchTemplate).
Local Abbreviation found := (found shape matchTemplate).
Local Abbreviation found_all := (found_all shape matchTemplate).

(** **** Claim C4, on the code.  A frame holds one instance of the
    download glyph, matching with score 1 at its exact place [(1, 1)] and
    below the threshold everywhere else.  [find_element] locates it, at
    the centre [(21, 21)] of its 40 by 40 box; [find_all_elements] returns
    no match at all, where one is due: [groupRectangles] with
    [groupThreshold = 1] throws away a rectangle that stands alone. *)
Theorem find_all_elements_loses_lone_match :
  let w := seeing lone_download in
  Cv2.where_ge (peaks 3 3 (1 # 10) [((1%nat, 1%nat), 1%Q)]) default_threshold
  = [(1%nat, 1%nat)]
  ∧ fst (find_element "download.png" screen_png default_threshold w) = Some (21, 21)
  ∧ fst (find_all_elements "download.png" screen_png default_threshold w) = [].
Proof. vm_compute. done. Qed.

(** Two places that pass the threshold side by side are reported as one
    match inside the box of the instance. *)
Example find_all_elements_groups_neighbours :
  fst (find_all_elements "download.png" screen_png default_threshold
         (seeing (frame [("download.png", glyph_at 20 6)])))
  = [(40, 26)].
Proof. vm_compute. done. Qed.

(** The story of one entry with two photos, run for real and dry. *)
Example story_real_run :
  commands (log (snd (main shape matchTemplate (scripted story) false world0)))
  = [Screencap true; Screencap true; Tap OpenEntry 50 24;
     Screencap true; Tap Download 40 26; Swipe 500 26 500 495 1000;
     Screencap true; Tap Download 40 23;
     Screencap true; Tap GoBack 21 21; Swipe 500 24 500 450 1000;
     Screencap true].
Proof. vm_compute. done. Qed.

Example story_dry_run :
  commands (log (snd (main shape matchTemplate (scripted story) true world0)))
  = [Screencap true; Screencap true; Tap OpenEntry 50 24;
     Screencap true; Swipe 500 26 500 495 1000;
     Screencap true;
     Screencap true; Tap GoBack 21 21; Swipe 500 24 500 450 1000;
     Screencap true].
Proof. vm_compute. done. Qed.

(** Claim C1 on the story. *)
Lemma dry_run_withholds_downloads_witness :
  let dev := scripted story in
  let dry := log (snd (main shape matchTemplate dev true world0)) in
  let real := log (snd (main shape matchTemplate dev false world0)) in
  (∀ l, screencap dev l = nth (length (captures l)) story NoAdb)
  ∧ downloads dry = downloads (log world0) ∧ navigation dry = navigation real.
Proof.
  intros dev dry real. split; [intros l; reflexivity|].
  apply (dry_run_withholds_downloads shape matchTemplate dev
           (fun n => nth n story NoAdb) world0).
  intros l. reflexivity.
Defined.

(** Claim C2 on a bridge that shows blank frames only. *)
Lemma no_match_bounded_termination_witness :
  let dev := steady blank in
  fst (entry_loop shape matchTemplate dev false world0) = true
  ∧ fst (main_iteration shape matchTemplate dev false world0) = Break.
Proof.
  intros dev.
  destruct (no_match_bounded_termination shape matchTemplate dev false world0)
    as [[Hentry _] [Hmain _]]; [|by split].
  intros l. exists (Picture (Screen [])). split; [reflexivity|].
  intros t Ht. unfold glyphs in Ht.
  repeat (apply elem_of_cons in Ht as [->|Ht]); try (split; vm_compute; reflexivity).
  by apply elem_of_nil in Ht.
Defined.

(** Claim C3 on the frame that ends the entry of the story. *)
Lemma entry_end_iteration_witness :
  let dev := scripted (drop 3 story) in
  let w1 := snd (take_screenshot dev screen_png world0) in
  let r := entry_iteration shape matchTemplate dev false world0 in
  fst (take_screenshot dev screen_png world0) = true
  ∧ found "closepic.png" (fs w1) = None
  ∧ is_Some (found "add_your_comment.png" (fs w1))
  ∧ fst r = Break
  ∧ gestures (log (snd r))
    = gestures (log world0)
      ++ flat_map (fun c => [Tap Download (fst c) (snd c); Sleep 1])
           (found_all "download.png" (fs w1))
  ∧ for_range 100 (entry_iteration shape matchTemplate dev false) world0 = (false, snd r).
Proof.
  intros dev w1 r.
  assert (H1 : fst (take_screenshot dev screen_png world0) = true) by reflexivity.
  assert (H2 : found "closepic.png" (fs w1) = None) by (vm_compute; reflexivity).
  assert (H3 : is_Some (found "add_your_comment.png" (fs w1)))
    by (exists (25, 29); vm_compute; reflexivity).
  split; [exact H1|]. split; [exact H2|]. split; [exact H3|].
  exact (entry_end_iteration shape matchTemplate dev false world0 99 H1 H2 H3).
Defined.

(** Claim C5 on a frame with the download glyph. *)
Lemma find_element_highest_confidence_witness :
  let img := Screen [("download.png", glyph_at 20 6)] in
  let tpl := Glyph "download.png" 40 40 in
  let w := {| fs := <[screen_png := Picture img]> templates; log := [] |} in
  fs w !! "download.png" = Some (Picture tpl)
  ∧ fs w !! screen_png = Some (Picture img)
  ∧ ∃ x y v,
      Cv2.score_at (matchTemplate img tpl) x y = Some v
      ∧ (default_threshold <= v)%Q
      ∧ fst (find_element "download.png" screen_png default_threshold w)
        = Some (Z.of_nat x + 40 / 2, Z.of_nat y + 40 / 2).
Proof.
  intros img tpl w.
  assert (Ht : fs w !! "download.png" = Some (Picture tpl)) by (vm_compute; reflexivity).
  assert (Hs : fs w !! screen_png = Some (Picture img)) by (vm_compute; reflexivity).
  split; [exact Ht|]. split; [exact Hs|].
  destruct (find_element_highest_confidence shape matchTemplate
              "download.png" screen_png default_threshold w tpl img Ht Hs)
    as [Hfound _].
  destruct Hfound as (x & y & v & Hv & Hth & _ & Hfind).
  { exists 20%nat, 6%nat, 1%Q. split; [vm_compute; reflexivity|].
    unfold default_threshold, Qle. simpl. lia. }
  exists x, y, v. split; [exact Hv|]. split; [exact Hth|]. exact Hfind.
Defined.



(** Claim C7, as claimed, fails: with [closepic.png] missing, the program
    starts all the same, opens the entry and downloads its photos; the
    missing file is noticed inside the loop over the entry, after the
    third capture, and again in the next iteration. *)
Lemma missing_template_noticed_in_the_loop :
  log (snd (main shape matchTemplate (scripted story) false
              {| fs := delete "closepic.png" templates; log := [] |}))
  = [Screencap true; Print (ScreenshotSaved "screen.png");
     Print (ElementNotFoundMax "loadmore.png" 0);
     Screencap true; Print (ScreenshotSaved "screen.png");
     Tap OpenEntry 50 24; Sleep 1;
     Screencap true; Print (ScreenshotSaved "screen.png");
     Print (TemplateFileNotFound "closepic.png");
     Print (ElementNotFoundMax "add_your_comment.png" 0);
     Print (DownloadingImageAt 40 26); Tap Download 40 26; Sleep 1;
     Swipe 500 26 500 495 1000;
     Screencap true; Print (ScreenshotSaved "screen.png");
     Print (TemplateFileNotFound "closepic.png");
     Print (DownloadingImageAt 40 23); Tap Download 40 23; Sleep 1;
     Screencap true; Print (ScreenshotSaved "screen.png");
     Sleep 1; Tap GoBack 21 21; Sleep 1;
     Swipe 500 24 500 450 1000;
     Screencap true; Print (ScreenshotSaved "screen.png")].
Proof. vm_compute. reflexivity. Qed.

(** Claim C7, as the code has it, on a world without [closepic.png]. *)
Lemma missing_template_is_no_match_witness :
  let w := {| fs := delete "closepic.png" templates; log := [] |} in
  fs w !! "closepic.png" = None
  ∧ fst (find_element "closepic.png" screen_png default_threshold w) = None
  ∧ fst (find_all_elements "closepic.png" screen_png default_threshold w) = [].
Proof.
  intros w.
  assert (Ht : fs w !! "closepic.png" = None) by (vm_compute; reflexivity).
  split; [exact Ht|].
  destruct (missing_template_is_no_match shape matchTemplate
              "closepic.png" screen_png default_threshold w Ht) as [-> ->].
  by split.
Defined.

(** Claim C9 on the frame of the story that shows the first photo. *)
Lemma scanning_iteration_witness :
  let dev := scripted (drop 2 story) in
  let w1 := snd (take_screenshot dev screen_png world0) in
  let r := entry_iteration shape matchTemplate dev false world0 in
  fst (take_screenshot dev screen_png world0) = true
  ∧ found "closepic.png" (fs w1) = None
  ∧ found "add_your_comment.png" (fs w1) = None
  ∧ fst r = Continue
  ∧ gestures (log (snd r))
    = gestures (log world0)
      ++ match found_all "download.png" (fs w1) with
         | (x, y) :: _ => [Tap Download x y; Sleep 1] ++ [Swipe 500 y 500 495 1000]
         | [] => [Swipe 500 2200 500 495 1000]
         end.
Proof.
  intros dev w1 r.
  assert (H1 : fst (take_screenshot dev screen_png world0) = true) by reflexivity.
  assert (H2 : found "closepic.png" (fs w1) = None) by (vm_compute; reflexivity).
  assert (H3 : found "add_your_comment.png" (fs w1) = None) by (vm_compute; reflexivity).
  split; [exact H1|]. split; [exact H2|]. split; [exact H3|].
  exact (scanning_iteration shape matchTemplate dev false world0 H1 H2 H3).
Defined.

End Examples.

(** * Further properties of the code *)

(** ** What every run keeps *)

Lemma announced_app l1 l2 : announced (l1 ++ l2) = announced l1 ++ announced l2.
Proof. apply flat_map_app. Qed.

Lemma downloaded_app l1 l2 : downloaded (l1 ++ l2) = downloaded l1 ++ downloaded l2.
Proof. apply flat_map_app. Qed.

Lemma downloaded_prints msgs : downloaded (map Print msgs) = [].
Proof. by induction msgs. Qed.

Lemma announced_cons e l :
  announced (e :: l)
  = match e with Print (DownloadingImageAt x y) => [(x, y)] | _ => [] end
    ++ announced l.
Proof. done. Qed.

Lemma downloaded_cons e l :
  downloaded (e :: l)
  = match e with Tap Download x y => [(x, y)] | _ => [] end ++ downloaded l.
Proof. done. Qed.

Lemma announced_nil : announced [] = [].
Proof. done. Qed.

Lemma downloaded_nil : downloaded [] = [].
Proof. done. Qed.

Create Rewrite HintDb announce.
#[global] Hint Rewrite announced_app downloaded_app announced_cons downloaded_cons
  announced_nil downloaded_nil downloaded_prints : announce.

Section Frame.

Context {Image : Type}.
Variable shape : Image -> Z * Z.
Variable matchTemplate : Image -> Image -> ScoreMap.
Variable dev : Device Image.

Implicit Types w : World Image.

Local Abbreviation found := (found shape matchTemplate).
Local Abbreviation found_all := (found_all shape matchTemplate).

Lemma grows_refl w : grows 0 w w.
Proof.
  split; [done|]. exists []. by rewrite app_nil_r.
Qed.

Lemma grows_trans a b w w1 w2 : grows a w w1 → grows b w1 w2 → grows (a + b) w w2.
Proof.
  intros [Hf1 (e1 & Hl1 & Hc1 & Ha1)] [Hf2 (e2 & Hl2 & Hc2 & Ha2)]. split.
  - intros p Hp. by rewrite Hf2, Hf1.
  - exists (e1 ++ e2). rewrite Hl2, Hl1, <- app_assoc. split; [done|].
    rewrite captures_app, length_app, announced_app, downloaded_app, Ha1, Ha2.
    split; [lia|done].
Qed.

Lemma grows_weaken a b w w' : grows a w w' → (a <= b)%nat → grows b w w'.
Proof.
  intros [Hf (e & Hl & Hc & Ha)] Hab. split; [done|]. exists e.
  split; [done|]. split; [lia|done].
Qed.

(** The messages of a query never announce a download. *)
Lemma find_element_quiet t s th w :
  ∃ msgs,
    announced (map Print msgs) = []
    ∧ find_element shape matchTemplate t s th w
      = (fst (find_element shape matchTemplate t s th {| fs := fs w; log := [] |}),
         {| fs := fs w; log := log w ++ map Print msgs |}).
Proof.
  destruct w as [f l]. autounfold with matcher. unfold_monad. simpl.
  destruct (bool_decide (is_Some (f !! t))); simpl; [|by exists [TemplateFileNotFound t]].
  destruct (bool_decide (is_Some (f !! s))); simpl; [|by exists [ScreenshotFileNotFound s]].
  destruct (f !! s) as [[img|]|]; try by exists [ErrorLoadingImages].
  destruct (f !! t) as [[tpl|]|]; try by exists [ErrorLoadingImages].
  destruct (shape tpl) as [h wd].
  destruct (Cv2.minMaxLoc (matchTemplate img tpl)) as [[loc v]|];
    [|exists []; simpl; by rewrite app_nil_r].
  destruct (Qle_bool th v); [exists []; simpl; by rewrite app_nil_r|].
  by exists [ElementNotFoundMax t v].
Qed.

Lemma find_all_elements_quiet t s th w :
  ∃ msgs,
    announced (map Print msgs) = []
    ∧ find_all_elements shape matchTemplate t s th w
      = (fst (find_all_elements shape matchTemplate t s th {| fs := fs w; log := [] |}),
         {| fs := fs w; log := log w ++ map Print msgs |}).
Proof.
  destruct w as [f l]. autounfold with matcher. unfold_monad. simpl.
  destruct (bool_decide (is_Some (f !! t))); simpl; [|by exists [TemplateFileNotFound t]].
  destruct (bool_decide (is_Some (f !! s))); simpl; [|by exists [ScreenshotFileNotFound s]].
  destruct (f !! s) as [[img|]|]; try by exists [ErrorLoadingImages].
  destruct (f !! t) as [[tpl|]|]; try by exists [ErrorLoadingImages].
  destruct (shape tpl) as [h wd].
  destruct (Cv2.where_ge (matchTemplate img tpl) th) as [|p ps];
    [by exists [ElementNotFound t]|].
  destruct (Cv2.groupRectangles _ _ _) as [rects weights].
  exists []. simpl. by rewrite app_nil_r.
Qed.

Lemma wq_find_element t (Q : option (Z * Z) -> World Image -> Prop) w :
  (∀ msgs, announced (map Print msgs) = [] →
           Q (found t (fs w)) {| fs := fs w; log := log w ++ map Print msgs |}) →
  wp (find_element shape matchTemplate t screen_png default_threshold) Q w.
Proof.
  intros HQ. unfold wp.
  destruct (find_element_quiet t screen_png default_threshold w) as (msgs & Hq & ->).
  by apply HQ.
Qed.

Lemma wq_find_all_elements t (Q : list (Z * Z) -> World Image -> Prop) w :
  (∀ msgs, announced (map Print msgs) = [] →
           Q (found_all t (fs w)) {| fs := fs w; log := log w ++ map Print msgs |}) →
  wp (find_all_elements shape matchTemplate t screen_png default_threshold) Q w.
Proof.
  intros HQ. unfold wp.
  destruct (find_all_elements_quiet t screen_png default_threshold w) as (msgs & Hq & ->).
  by apply HQ.
Qed.

Lemma wq_tap_element why x y (Q : bool -> World Image -> Prop) w :
  (∀ b msgs, announced (map Print msgs) = [] →
             Q b {| fs := fs w; log := log w ++ Tap why x y :: map Print msgs |}) →
  wp (tap_element dev why x y) Q w.
Proof.
  intros HQ. unfold wp. autounfold with bridge. unfold_monad.
  destruct (input dev (log w)); simpl.
  - by apply (HQ true []).
  - rewrite <- app_assoc. by apply (HQ false [ErrorTappingElement]).
Qed.

End Frame.

(** One step, keeping what is known of the messages. *)
Ltac wq_step :=
  lazymatch goal with
  | |- wp (find_element _ _ _ _ _) _ _ => apply wq_find_element; intros ? ?
  | |- wp (find_all_elements _ _ _ _ _) _ _ => apply wq_find_all_elements; intros ? ?
  | |- wp (tap_element _ _ _ _) _ _ => apply wq_tap_element; intros ? ? ?
  | |- _ => wp_step
  end.

Ltac wq_run := repeat first [wq_step | progress simpl].

(** A world reached by explicit events grows from the one it started at. *)
Ltac solve_grows :=
  unfold grows, same_templates; simpl;
  split;
  [ intros ? ?; rewrite ?lookup_insert_ne by done; done
  | eexists; split;
    [ rewrite <- ?app_assoc; reflexivity
    | split;
      [ norm_logs; rewrite ?length_app; simpl; lia
      | autorewrite with announce;
        repeat match goal with
               | H : announced (map Print _) = [] |- _ => rewrite H; clear H
               end;
        simpl; rewrite ?app_nil_r; done ] ] ].

Section Budget.

Context {Image : Type}.
Variable shape : Image -> Z * Z.
Variable matchTemplate : Image -> Image -> ScoreMap.
Variable dev : Device Image.

Implicit Types w : World Image.

Local Abbreviation found := (found shape matchTemplate).
Local Abbreviation found_all := (found_all shape matchTemplate).
Local Abbreviation entry_iteration := (entry_iteration shape matchTemplate dev).
Local Abbreviation back_iteration := (back_iteration shape matchTemplate dev).
Local Abbreviation download_all := (download_all_photos_from_entry shape matchTemplate dev).
Local Abbreviation main_step := (main_iteration shape matchTemplate dev).
Local Abbreviation main_run := (main shape matchTemplate dev).

Lemma wp_for_range_grows (body : M Image Flow) c n :
  (∀ w, wp body (fun _ w' => grows c w w') w) →
  ∀ w, wp (for_range n body) (fun _ w' => grows (n * c) w w') w.
Proof.
  intros Hbody w.
  apply (wp_for_range (fun k w' => grows (k * c) w w')
           body n (fun _ w' => grows (n * c) w w')).
  - intros k w1 Hk HI. eapply wp_mono; [apply Hbody|].
    intros f w' Hstep.
    assert (Hnext : grows (S k * c) w w').
    { eapply grows_weaken; [eapply grows_trans; [exact HI|exact Hstep]|].
      rewrite Nat.mul_succ_l. done. }
    destruct f; [done|]. eapply grows_weaken; [exact Hnext|].
    apply Nat.mul_le_mono_r. lia.
  - done.
  - apply grows_refl.
Qed.

Lemma wp_download_each_grows dry_run (coords : list (Z * Z)) w :
  wp (for_each coords (fun c =>
        if negb dry_run then
          print (DownloadingImageAt (fst c) (snd c));;
          tap_element dev Download (fst c) (snd c);;
          sleep 1
        else mret tt))
     (fun _ w' => grows 0 w w') w.
Proof.
  revert w. induction coords as [|c coords IH]; intros w; simpl.
  - apply wp_ret, grows_refl.
  - apply wp_bind. destruct dry_run; simpl.
    + apply wp_ret. apply IH.
    + wq_run. eapply wp_mono; [apply IH|].
      intros u w' Hrest. simpl.
      eapply grows_weaken; [eapply (grows_trans 0); [|exact Hrest]|]; [solve_grows|lia].
Qed.

Lemma wp_entry_iteration_grows dry_run w :
  wp (entry_iteration dry_run) (fun _ w' => grows 1 w w') w.
Proof.
  autounfold with machine. wq_run.
  destruct (screencap dev (log w)) as [[|] out|]; wq_run; try solve_grows.
  destruct (found "closepic.png" _) as [[x y]|]; wq_run; [solve_grows|].
  destruct (found "add_your_comment.png" _) as [c|]; wq_run.
  - eapply wp_mono; [apply wp_download_each_grows|].
    intros u w' Hrest. wq_run.
    eapply grows_weaken; [eapply (grows_trans 1); [|exact Hrest]|]; [solve_grows|lia].
  - destruct (found_all "download.png" _) as [|[x y] rest];
      [|destruct dry_run]; wq_run; solve_grows.
Qed.

Lemma wp_back_iteration_grows w :
  wp back_iteration (fun _ w' => grows 1 w w') w.
Proof.
  autounfold with machine. wq_run.
  destruct (screencap dev (log w)) as [[|] out|]; wq_run; try solve_grows.
  destruct (found "back.png" _) as [[x y]|]; wq_run; solve_grows.
Qed.

Lemma wp_download_all_grows dry_run w :
  wp (download_all dry_run) (fun _ w' => grows 105 w w') w.
Proof.
  unfold download_all_photos_from_entry. autounfold with loops. apply wp_bind.
  eapply wp_mono; [apply wp_for_range_grows, wp_entry_iteration_grows|].
  intros f1 w1 H1. apply wp_bind.
  eapply wp_mono; [apply wp_for_range_grows, wp_back_iteration_grows|].
  intros f2 w2 H2. apply wp_ret. cbv beta in H1, H2.
  eapply grows_weaken; [exact (grows_trans _ _ _ _ _ H1 H2)|]. simpl. lia.
Qed.

Lemma wp_main_iteration_grows dry_run w :
  wp (main_step dry_run) (fun _ w' => grows 107 w w') w.
Proof.
  unfold main_iteration.
  match goal with
  | |- context [if _ then mret Break else ?r] =>
      remember r as open_entry eqn:Hopen
  end.
  assert (Hrest : ∀ w1, grows 1 w w1 → wp open_entry (fun _ w' => grows 107 w w') w1).
  { intros w1 H1. subst open_entry. apply wp_bind, wp_take_screenshot.
    assert (Hskip : ∀ w2, grows 1 w1 w2 → grows 107 w w2).
    { intros w2 H2. eapply grows_weaken; [exact (grows_trans _ _ _ _ _ H1 H2)|]. lia. }
    destruct (screencap dev (log w1)) as [[|] out|]; wq_run;
      try (apply Hskip; solve_grows).
    destruct (found_all "right.png" _) as [|c0 rest]; wq_run;
      [apply Hskip; solve_grows|].
    eapply wp_mono; [apply wp_download_all_grows|].
    intros u w3 H3. cbv beta in H3. wq_run.
    eapply grows_weaken;
      [eapply grows_trans;
       [exact H1|eapply (grows_trans 1); [|eapply (grows_trans _ 0); [exact H3|]]]|];
      [solve_grows|solve_grows|lia]. }
  clear Hopen. apply wp_bind, wp_take_screenshot.
  destruct (screencap dev (log w)) as [[|] out|]; wq_run.
  - destruct (found "loadmore.png" _) as [c|]; wq_run.
    + apply (grows_weaken 1); [solve_grows|lia].
    + apply Hrest. solve_grows.
  - apply Hrest. solve_grows.
  - apply Hrest. solve_grows.
Qed.

Lemma wp_main_grows dry_run w :
  wp (main_run dry_run) (fun _ w' => grows (10000 * 107) w w') w.
Proof.
  unfold main. autounfold with loops. generalize 10000%nat. intros n.
  apply wp_bind.
  assert (Hbanner : wp (if dry_run then print DryRunEnabled else mret tt)
            (fun _ w' => grows 0 w w') w).
  { destruct dry_run; wq_run; [solve_grows|apply grows_refl]. }
  eapply wp_mono; [exact Hbanner|]. intros u w1 H1. apply wp_bind.
  eapply wp_mono; [apply wp_for_range_grows, wp_main_iteration_grows|].
  intros f w2 H2. apply wp_ret. cbv beta in H1, H2.
  exact (grows_trans _ _ _ _ _ H1 H2).
Qed.

End Budget.

(** **** Extra X1.  [download_all_photos_from_entry] only appends to the
    log, and whatever the bridge does it runs the screen capture at most
    105 times: 100 in the loop over the photos and 5 in the pass back. *)
Theorem entry_capture_budget {Image} (shape : Image -> Z * Z)
  (matchTemplate : Image -> Image -> ScoreMap) (dev : Device Image)
  (dry_run : bool) (w : World Image) :
  ∃ evs,
    log (snd (download_all_photos_from_entry shape matchTemplate dev dry_run w))
    = log w ++ evs
    ∧ (length (captures evs) <= 105)%nat.
Proof.
  destruct (wp_download_all_grows shape matchTemplate dev dry_run w)
    as [_ (evs & Hlog & Hcap & _)].
  by exists evs.
Qed.

(** **** Extra X2.  The whole program only appends to the log and runs the
    screen capture at most 10000 * 107 times, whatever the bridge does:
    two captures and one entry for each iteration of the walk. *)
Theorem main_capture_budget {Image} (shape : Image -> Z * Z)
  (matchTemplate : Image -> Image -> ScoreMap) (dev : Device Image)
  (dry_run : bool) (w : World Image) :
  ∃ evs,
    log (snd (main shape matchTemplate dev dry_run w)) = log w ++ evs
    ∧ (length (captures evs) <= 10000 * 107)%nat.
Proof.
  destruct (wp_main_grows shape matchTemplate dev dry_run w)
    as [_ (evs & Hlog & Hcap & _)].
  by exists evs.
Qed.

(** **** Extra X3.  The program writes no file but [screen.png]: every
    other file, the templates among them, is after the run what it was
    before. *)
Theorem main_writes_only_the_screenshot {Image} (shape : Image -> Z * Z)
  (matchTemplate : Image -> Image -> ScoreMap) (dev : Device Image)
  (dry_run : bool) (w : World Image) (p : string) :
  p ≠ "screen.png" →
  fs (snd (main shape matchTemplate dev dry_run w)) !! p = fs w !! p.
Proof.
  intros Hp.
  destruct (wp_main_grows shape matchTemplate dev dry_run w) as [Hfs _].
  by apply Hfs.
Qed.

(** **** Extra X4.  In any run the downloads announced by the message
    "Downloading image at" and the download taps sent are the same
    coordinates in the same order: no tap goes unannounced, and nothing is
    announced that is not tapped. *)
Theorem downloads_are_announced {Image} (shape : Image -> Z * Z)
  (matchTemplate : Image -> Image -> ScoreMap) (dev : Device Image)
  (dry_run : bool) (w : World Image) :
  ∃ evs,
    log (snd (main shape matchTemplate dev dry_run w)) = log w ++ evs
    ∧ announced evs = downloaded evs.
Proof.
  destruct (wp_main_grows shape matchTemplate dev dry_run w)
    as [_ (evs & Hlog & _ & Hann)].
  by exists evs.
Qed.

(** ** More on the matcher *)

Section MatcherEdges.

Context {Image : Type}.
Variable shape : Image -> Z * Z.
Variable matchTemplate : Image -> Image -> ScoreMap.
Variable dev : Device Image.

Implicit Types w : World Image.


Lemma where_ge_cell res th p :
  p ∈ Cv2.where_ge res th →
  ∃ v, Cv2.score_at res (fst p) (snd p) = Some v ∧ (th <= v)%Q.
Proof.
  unfold Cv2.where_ge. rewrite list_elem_of_In, in_map_iff.
  intros ([[x y] v] & <- & Hin). apply filter_In in Hin as [Hin Hle].
  exists v. split.
  - by apply cells_score_at, list_elem_of_In.
  - by apply Qle_bool_iff.
Qed.

(** **** Extra X5.  The two forms of observation agree on absence: when
    [find_element] finds nothing, whatever the reason (a file missing or
    unreadable, or every score below the threshold), [find_all_elements]
    on the same files, template and threshold returns no match. *)
Theorem no_element_no_elements t s th w :
  fst (find_element shape matchTemplate t s th w) = None →
  fst (find_all_elements shape matchTemplate t s th w) = [].
Proof.
  autounfold with matcher. unfold_monad. simpl.
  destruct (bool_decide (is_Some (fs w !! t))); simpl; [|done].
  destruct (bool_decide (is_Some (fs w !! s))); simpl; [|done].
  destruct (fs w !! s) as [[img|]|]; try done.
  destruct (fs w !! t) as [[tpl|]|]; try done.
  destruct (shape tpl) as [h wd].
  pose proof (minMaxLoc_spec (matchTemplate img tpl)) as Hmax.
  destruct (Cv2.where_ge (matchTemplate img tpl) th) as [|p ps] eqn:Hwhere; [done|].
  destruct (where_ge_cell (matchTemplate img tpl) th p) as (v & Hv & Hth).
  { rewrite Hwhere. apply list_elem_of_here. }
  destruct (Cv2.minMaxLoc (matchTemplate img tpl)) as [[loc mv]|].
  - destruct Hmax as [_ Hall].
    assert (Hle : Qle_bool th mv = true).
    { apply Qle_bool_iff. eapply Qle_trans; [exact Hth|]. by eapply Hall. }
    by rewrite Hle.
  - apply cells_score_at in Hv. rewrite Hmax in Hv. by apply elem_of_nil in Hv.
Qed.

(** **** Extra X6.  An observation only looks: [find_element] and
    [find_all_elements] change no file and add nothing to the log but
    messages, so no capture, tap, swipe or pause comes from them. *)
Theorem observation_only_looks t s th w :
  (let w' := snd (find_element shape matchTemplate t s th w) in
   fs w' = fs w
   ∧ commands (log w') = commands (log w)
   ∧ gestures (log w') = gestures (log w))
  ∧ (let w' := snd (find_all_elements shape matchTemplate t s th w) in
     fs w' = fs w
     ∧ commands (log w') = commands (log w)
     ∧ gestures (log w') = gestures (log w)).
Proof.
  split.
  - destruct (find_element_run shape matchTemplate t s th w) as [msgs ->].
    simpl. by norm_logs.
  - destruct (find_all_elements_run shape matchTemplate t s th w) as [msgs ->].
    simpl. by norm_logs.
Qed.

(** **** Extra X7.  A screenshot file that is missing, or that
    [cv2.imread] cannot decode, shows nothing: both observations return no
    match for every template and threshold. *)
Theorem unreadable_screenshot_shows_nothing t s th w :
  (∀ img, fs w !! s ≠ Some (Picture img)) →
  fst (find_element shape matchTemplate t s th w) = None
  ∧ fst (find_all_elements shape matchTemplate t s th w) = [].
Proof.
  intros Hbad.
  assert (Hone : fst (find_element shape matchTemplate t s th w) = None).
  { autounfold with matcher. unfold_monad. simpl.
    destruct (bool_decide (is_Some (fs w !! t))); simpl; [|done].
    destruct (bool_decide (is_Some (fs w !! s))); simpl; [|done].
    destruct (fs w !! s) as [[img|]|]; [by destruct (Hbad img)|done|done]. }
  split; [done|]. by apply no_element_no_elements.
Qed.

(** **** Extra X8.  [take_screenshot] empties the file before it runs adb.
    So when adb cannot be started, the call returns [False], the frame of
    the capture before is gone, and an observation made then finds
    nothing instead of the matches of the old frame; no other file is
    touched. *)
Theorem failed_capture_leaves_no_stale_frame p w :
  screencap dev (log w) = NoAdb →
  let w1 := snd (take_screenshot dev p w) in
  fst (take_screenshot dev p w) = false
  ∧ (∀ t th, fst (find_element shape matchTemplate t p th w1) = None
             ∧ fst (find_all_elements shape matchTemplate t p th w1) = [])
  ∧ (∀ q, q ≠ p → fs w1 !! q = fs w !! q).
Proof.
  intros Hno w1. subst w1. rewrite take_screenshot_eq, Hno. simpl.
  split; [done|]. split.
  - intros t th. apply unreadable_screenshot_shows_nothing.
    intros img. simpl. by rewrite lookup_insert_eq.
  - intros q Hq. by rewrite lookup_insert_ne.
Qed.

End MatcherEdges.

(** ** More on the two loops *)

Section LoopSteps.

Context {Image : Type}.
Variable shape : Image -> Z * Z.
Variable matchTemplate : Image -> Image -> ScoreMap.
Variable dev : Device Image.

Implicit Types w : World Image.

Local Abbreviation found := (found shape matchTemplate).
Local Abbreviation found_all := (found_all shape matchTemplate).
Local Abbreviation entry_step := (entry_iteration shape matchTemplate dev).
Local Abbreviation walk_step := (main_iteration shape matchTemplate dev).
Local Abbreviation walk := (main_loop shape matchTemplate dev).

(** **** Extra X9.  An open photo comes first: in an iteration whose
    screenshot shows the close-photo glyph, the only gestures are the tap
    on that glyph and a pause of one second, and the loop goes on,
    whatever else the screenshot shows.  No download is tapped and nothing
    is scrolled, even with the end-of-entry glyph on the screen. *)
Theorem open_photo_is_closed_first dry_run w x y :
  let w1 := snd (take_screenshot dev screen_png w) in
  let r := entry_step dry_run w in
  fst (take_screenshot dev screen_png w) = true →
  found "closepic.png" (fs w1) = Some (x, y) →
  fst r = Continue
  ∧ gestures (log (snd r)) = gestures (log w) ++ [Tap ClosePhoto x y; Sleep 1]
  ∧ commands (log (snd r)) = commands (log w) ++ [Screencap true; Tap ClosePhoto x y].
Proof.
  intros w1 r. subst w1 r. rewrite take_screenshot_eq.
  destruct (screencap dev (log w)) as [[|] out|] eqn:Hcap; simpl; try done.
  intros _ Hclose.
  assert (H : wp (entry_step dry_run)
            (fun f w' =>
               f = Continue
               ∧ gestures (log w') = gestures (log w) ++ [Tap ClosePhoto x y; Sleep 1]
               ∧ commands (log w')
                 = commands (log w) ++ [Screencap true; Tap ClosePhoto x y]) w); [|done].
  autounfold with machine. wp_run. rewrite Hcap. wp_run. rewrite Hclose.
  wp_run. by solve_logs.
Qed.

(** **** Extra X10.  The end of the list: when the first screenshot of an
    iteration of the walk shows the load-more glyph, the walk ends there,
    having made that one capture and sent no gesture; no entry is
    opened. *)
Theorem end_of_list_stops_the_walk dry_run w :
  let w1 := snd (take_screenshot dev screen_png w) in
  fst (take_screenshot dev screen_png w) = true →
  is_Some (found "loadmore.png" (fs w1)) →
  walk dry_run w = (false, snd (walk_step dry_run w))
  ∧ commands (log (snd (walk_step dry_run w))) = commands (log w) ++ [Screencap true]
  ∧ gestures (log (snd (walk_step dry_run w))) = gestures (log w).
Proof.
  intros w1. subst w1. rewrite take_screenshot_eq.
  destruct (screencap dev (log w)) as [[|] out|] eqn:Hcap; simpl; try done.
  intros _ [c Hmore].
  assert (H : wp (walk_step dry_run)
            (fun f w' =>
               f = Break
               ∧ commands (log w') = commands (log w) ++ [Screencap true]
               ∧ gestures (log w') = gestures (log w)) w).
  { unfold main_iteration. wp_run. rewrite Hcap. wp_run. rewrite Hmore.
    wp_run. by solve_logs. }
  destruct H as (Hf & Hcmd & Hg). split; [|done].
  autounfold with loops. change 10000%nat with (S 9999).
  by apply for_range_break.
Qed.

(** **** Extra X11.  What one iteration of the walk sends.  It only
    appends to the log, and its gestures are either none at all (the list
    has ended, no right arrow was found, or a capture failed), or: the tap
    that opens an entry and its pause, then whatever the entry needs, and
    last the swipe that moves the list up from the height of the tapped
    arrow to 450; in that case the walk goes on.  So the list is never
    scrolled without an entry having been opened, and an opened entry is
    always followed by the scroll, however the entry ended. *)
Theorem walk_step_opens_then_scrolls dry_run w :
  ∃ evs,
    log (snd (walk_step dry_run w)) = log w ++ evs
    ∧ (gestures evs = []
       ∨ (fst (walk_step dry_run w) = Continue
          ∧ ∃ x y mid,
              gestures evs
              = [Tap OpenEntry x y; Sleep 1] ++ mid ++ [Swipe 500 y 500 450 1000])).
Proof.
  assert (H : wp (walk_step dry_run)
            (fun f w' =>
               ∃ evs,
                 log w' = log w ++ evs
                 ∧ (gestures evs = []
                    ∨ (f = Continue
                       ∧ ∃ x y mid,
                           gestures evs
                           = [Tap OpenEntry x y; Sleep 1] ++ mid
                             ++ [Swipe 500 y 500 450 1000]))) w); [|done].
  assert (Hquiet : ∀ f evs,
            gestures evs = [] →
            ∃ evs', log w ++ evs = log w ++ evs'
                    ∧ (gestures evs' = []
                       ∨ (f = Continue
                          ∧ ∃ x y mid,
                              gestures evs'
                              = [Tap OpenEntry x y; Sleep 1] ++ mid
                                ++ [Swipe 500 y 500 450 1000]))).
  { intros f evs Hg. exists evs. split; [done|by left]. }
  unfold main_iteration. wp_run.
  destruct (screencap dev (log w)) as [[|] out|]; wp_run;
    [destruct (found "loadmore.png" _) as [c|]; wp_run| |];
    try (rewrite <- ?app_assoc; apply Hquiet; by norm_logs);
    match goal with
    | |- match screencap dev ?l with _ => _ end =>
        destruct (screencap dev l) as [[|] out2|]
    end; wp_run;
    try (rewrite <- ?app_assoc; apply Hquiet; by norm_logs);
    (destruct (found_all "right.png" _) as [|[x y] rest]; wp_run;
     [rewrite <- ?app_assoc; apply Hquiet; by norm_logs|]);
    (eapply wp_mono; [apply wp_download_all_grows|]);
    intros u w3 [_ (evs3 & Hlog3 & _)]; wp_run; rewrite Hlog3; simpl;
    rewrite <- ?app_assoc; (eexists; split; [reflexivity|]);
    right; (split; [done|]); exists x, y, (gestures evs3); by norm_logs.
Qed.

End LoopSteps.

(** ** How many matches [find_all_elements] can report *)

Lemma filter_length_split {A} (p : list A -> bool) (l : list (list A)) :
  (length (concat (List.filter p l))
   + length (concat (List.filter (fun c => negb (p c)) l))
   = length (concat l))%nat.
Proof.
  induction l as [|c l IH]; simpl; [done|].
  destruct (p c); simpl; rewrite !length_app; lia.
Qed.

(** [cv::partition] loses no element and invents none. *)
Lemma absorb_length {A} (same : A -> A -> bool) (classes : list (list A)) x :
  length (concat (Cv2.absorb same classes x)) = S (length (concat classes)).
Proof.
  induction classes as [|c rest IH]; simpl; [done|].
  destruct (existsb (same x) c); simpl.
  - rewrite !length_app. simpl.
    pose proof (filter_length_split (existsb (same x)) rest). lia.
  - rewrite !length_app, IH. lia.
Qed.

Lemma partition_length {A} (same : A -> A -> bool) (l : list A) :
  length (concat (Cv2.partition same l)) = length l.
Proof.
  unfold Cv2.partition.
  assert (H : ∀ acc, length (concat (fold_left (Cv2.absorb same) l acc))
                     = (length (concat acc) + length l)%nat).
  { induction l as [|x l IH]; intros acc; simpl; [lia|].
    rewrite IH, absorb_length. lia. }
  by rewrite H.
Qed.

(** Classes of two or more take two elements each. *)
Lemma big_classes_length {A} (classes : list (list A)) :
  (2 * length (List.filter (fun c => (1 <? Z.of_nat (length c))%Z) classes)
   <= length (concat classes))%nat.
Proof.
  induction classes as [|c rest IH]; simpl; [lia|].
  rewrite length_app. destruct (1 <? Z.of_nat (length c)) eqn:Hc; simpl; [|lia].
  apply Z.ltb_lt in Hc. lia.
Qed.

Lemma average_weight (c : list Rect) : snd (Cv2.average c) = Z.of_nat (length c).
Proof.
  unfold Cv2.average. by destruct (Cv2.sum_rects c) as [[[sx sy] sw] sh].
Qed.

Lemma filter_length_le {A} (p q : A -> bool) (l : list A) :
  (∀ x, p x = true → q x = true) →
  (length (List.filter p l) <= length (List.filter q l))%nat.
Proof.
  intros Hpq. induction l as [|x l IH]; simpl; [done|].
  destruct (p x) eqn:Hp.
  - rewrite (Hpq x Hp). simpl. lia.
  - destruct (q x); simpl; lia.
Qed.

Lemma supported_classes_length (classes : list (list Rect)) :
  ∀ g : nat -> nat,
    length (List.filter (fun irn : nat * (Rect * Z) => 1 <? snd (snd irn))
              (imap (fun i rn => (g i, rn)) (map Cv2.average classes)))
    = length (List.filter (fun c => 1 <? Z.of_nat (length c)) classes).
Proof.
  induction classes as [|c rest IH]; intros g; [done|].
  cbn [map imap List.filter snd]. rewrite average_weight.
  specialize (IH (g ∘ S)).
  destruct (1 <? Z.of_nat (length c)); cbn [length]; by rewrite <- IH.
Qed.

(** [groupRectangles] with [groupThreshold = 1] returns at most half as
    many rectangles as it was given. *)
Lemma groupRectangles_halves (rects : list Rect) (eps : Q) :
  (2 * length (fst (Cv2.groupRectangles rects 1 eps)) <= length rects)%nat.
Proof.
  unfold Cv2.groupRectangles.
  destruct rects as [|r rects]; [simpl; lia|].
  rewrite bool_decide_eq_false_2 by done. simpl orb. cbv iota.
  set (classes := Cv2.partition (Cv2.similar_rects eps) (r :: rects)).
  cbn [fst]. rewrite length_map.
  etransitivity;
    [apply Nat.mul_le_mono_l,
       (filter_length_le _ (fun irn : nat * (Rect * Z) => 1 <? snd (snd irn)))|].
  - intros [i [r1 n1]] H. simpl. by apply andb_prop in H as [H _].
  - rewrite (supported_classes_length classes (fun i => i)).
    rewrite <- (partition_length (Cv2.similar_rects eps) (r :: rects)).
    apply big_classes_length.
Qed.

Section MatchCount.

Context {Image : Type}.
Variable shape : Image -> Z * Z.
Variable matchTemplate : Image -> Image -> ScoreMap.

Implicit Types w : World Image.

(** **** Extra X12.  [find_all_elements] reports at most half as many
    matches as there are places at or above the threshold: each match it
    returns stands for a group of at least two such places, and a place
    that passes the threshold alone is never reported. *)
Theorem find_all_elements_needs_two_places t s th w tpl img :
  fs w !! t = Some (Picture tpl) →
  fs w !! s = Some (Picture img) →
  (2 * length (fst (find_all_elements shape matchTemplate t s th w))
   <= length (Cv2.where_ge (matchTemplate img tpl) th))%nat.
Proof.
  intros Ht Hs. autounfold with matcher. unfold_monad. simpl.
  rewrite (bool_decide_eq_true_2 (is_Some (fs w !! t))) by eauto. simpl.
  rewrite (bool_decide_eq_true_2 (is_Some (fs w !! s))) by eauto. simpl.
  rewrite Ht, Hs. destruct (shape tpl) as [h wd].
  destruct (Cv2.where_ge (matchTemplate img tpl) th) as [|p ps] eqn:Hwhere;
    [simpl; lia|].
  pose proof (groupRectangles_halves
                (map (fun pt : nat * nat => (Z.of_nat (fst pt), Z.of_nat (snd pt), wd, h))
                     (p :: ps)) (2 # 10)) as Hhalf.
  destruct (Cv2.groupRectangles _ 1 (2 # 10)) as [rects weights].
  simpl in Hhalf |- *. rewrite length_map in *. exact Hhalf.
Qed.

End MatchCount.

(** ** Gestures that fail *)

Lemma actions_app l1 l2 : actions (l1 ++ l2) = actions l1 ++ actions l2.
Proof. apply List.filter_app. Qed.

Lemma actions_prints msgs : actions (map Print msgs) = [].
Proof. by apply filter_prints. Qed.

Section FailedGestures.

Context {Image : Type}.
Variable shape : Image -> Z * Z.
Variable matchTemplate : Image -> Image -> ScoreMap.

(** Two bridges that show the same thing after the same actions; whether
    a gesture is reported as sent or as failed is up to each. *)
Variables dev1 dev2 : Device Image.
Variable view : list Event -> Capture Image.
Hypothesis view1 : ∀ l, screencap dev1 l = view (actions l).
Hypothesis view2 : ∀ l, screencap dev2 l = view (actions l).

Implicit Types w wa wb : World Image.

Local Abbreviation any := (fun _ _ => True).

Lemma lock_ret {A} (V : A -> A -> Prop) a1 a2 :
  V a1 a2 → lockstep (Image := Image) V (mret a1) (mret a2).
Proof. by intros HV wa wb HR. Qed.

Lemma lock_bind {A B} (V : A -> A -> Prop) (V' : B -> B -> Prop)
  (m1 m2 : M Image A) (k1 k2 : A -> M Image B) :
  lockstep V m1 m2 →
  (∀ a1 a2, V a1 a2 → lockstep V' (k1 a1) (k2 a2)) →
  lockstep V' (m1 ≫= k1) (m2 ≫= k2).
Proof.
  intros Hm Hk wa wb HR. destruct (Hm wa wb HR) as [HV HR'].
  unfold_monad. destruct (m1 wa) as [a1 wa'], (m2 wb) as [a2 wb']. simpl in *.
  by apply Hk.
Qed.

Lemma in_step_events e1 e2 wa wb :
  actions e1 = actions e2 →
  in_step wa wb →
  in_step {| fs := fs wa; log := log wa ++ e1 |} {| fs := fs wb; log := log wb ++ e2 |}.
Proof.
  intros He [Hfs Hact]. split; [done|]. simpl. by rewrite !actions_app, Hact, He.
Qed.

Lemma lock_print m1 m2 : lockstep (Image := Image) eq (print m1) (print m2).
Proof. intros wa wb HR. split; [done|]. by apply (in_step_events [Print m1] [Print m2]). Qed.

Lemma lock_sleep n : lockstep (Image := Image) eq (sleep n) (sleep n).
Proof. intros wa wb HR. split; [done|]. by apply (in_step_events [Sleep n] [Sleep n]). Qed.

Lemma lock_take_screenshot p :
  lockstep eq (take_screenshot dev1 p) (take_screenshot dev2 p).
Proof.
  intros wa wb [Hfs Hact]. rewrite !take_screenshot_eq, view1, view2, Hact, Hfs.
  destruct (view _) as [[|] out|]; simpl; (split; [done|]);
    (split; [done|]); simpl; by rewrite !actions_app, Hact.
Qed.

Lemma lock_find_element t :
  lockstep eq (find_element shape matchTemplate t screen_png default_threshold)
              (find_element shape matchTemplate t screen_png default_threshold).
Proof.
  intros wa wb HR.
  destruct (find_element_run shape matchTemplate t screen_png default_threshold wa)
    as [m1 ->].
  destruct (find_element_run shape matchTemplate t screen_png default_threshold wb)
    as [m2 ->].
  simpl. split; [by rewrite (proj1 HR)|].
  apply in_step_events; [|done]. by rewrite !actions_prints.
Qed.

Lemma lock_find_all_elements t :
  lockstep eq (find_all_elements shape matchTemplate t screen_png default_threshold)
              (find_all_elements shape matchTemplate t screen_png default_threshold).
Proof.
  intros wa wb HR.
  destruct (find_all_elements_run shape matchTemplate t screen_png default_threshold wa)
    as [m1 ->].
  destruct (find_all_elements_run shape matchTemplate t screen_png default_threshold wb)
    as [m2 ->].
  simpl. split; [by rewrite (proj1 HR)|].
  apply in_step_events; [|done]. by rewrite !actions_prints.
Qed.

(** The tap is sent once on either bridge, reported as failed or not. *)
Lemma lock_tap_element why x y :
  lockstep any (tap_element dev1 why x y) (tap_element dev2 why x y).
Proof.
  intros wa wb HR. split; [done|].
  autounfold with bridge. unfold_monad.
  destruct (input dev1 (log wa)), (input dev2 (log wb)); simpl;
    rewrite <- ?app_assoc; by apply in_step_events.
Qed.

Lemma lock_scroll x1 y1 x2 y2 d :
  lockstep any (scroll dev1 x1 y1 x2 y2 d) (scroll dev2 x1 y1 x2 y2 d).
Proof.
  intros wa wb HR. split; [done|].
  autounfold with bridge. unfold_monad.
  destruct (input dev1 (log wa)), (input dev2 (log wb)); simpl;
    by apply in_step_events.
Qed.

Ltac lock_step :=
  first
    [ apply lock_ret; done
    | apply lock_sleep
    | eapply lock_bind; [apply lock_tap_element | intros _ _ _]
    | eapply lock_bind; [apply lock_scroll | intros _ _ _]
    | eapply lock_bind; [apply lock_sleep | intros _ _ _]
    | eapply lock_bind; [apply lock_print | intros _ _ _] ].

Ltac lock_read v :=
  first
    [ eapply lock_bind; [apply lock_take_screenshot | intros v ? <-]
    | eapply lock_bind; [apply lock_find_element | intros v ? <-]
    | eapply lock_bind; [apply lock_find_all_elements | intros v ? <-] ].

Lemma lock_for_range n (b1 b2 : M Image Flow) :
  lockstep eq b1 b2 → lockstep eq (for_range n b1) (for_range n b2).
Proof.
  intros Hb. induction n as [|n IH]; simpl.
  - by apply lock_ret.
  - eapply lock_bind; [exact Hb|]. intros f ? <-. destruct f; [exact IH|by apply lock_ret].
Qed.

Lemma lock_download_each dry_run (coords : list (Z * Z)) :
  lockstep eq
    (for_each coords (fun c =>
       if negb dry_run then
         print (DownloadingImageAt (fst c) (snd c));;
         tap_element dev1 Download (fst c) (snd c);;
         sleep 1
       else mret tt))
    (for_each coords (fun c =>
       if negb dry_run then
         print (DownloadingImageAt (fst c) (snd c));;
         tap_element dev2 Download (fst c) (snd c);;
         sleep 1
       else mret tt)).
Proof.
  induction coords as [|c coords IH]; simpl.
  - by apply lock_ret.
  - eapply (lock_bind eq).
    + destruct dry_run; simpl; [by apply lock_ret|]. repeat lock_step.
    + intros _ _ _. exact IH.
Qed.

Lemma lock_entry_iteration dry_run :
  lockstep eq (entry_iteration shape matchTemplate dev1 dry_run)
              (entry_iteration shape matchTemplate dev2 dry_run).
Proof.
  autounfold with machine. lock_read ok. destruct ok; simpl; [|repeat lock_step].
  lock_read coord. destruct coord as [[x y]|]; [repeat lock_step|].
  lock_read coord. destruct coord as [c|].
  - lock_read coords. eapply lock_bind; [apply lock_download_each|]. intros _ _ _.
    by apply lock_ret.
  - lock_read coords. destruct coords as [|c0 rest].
    + repeat lock_step.
    + eapply (lock_bind eq).
      * destruct dry_run; simpl; [by apply lock_ret|]. repeat lock_step.
      * intros _ _ _. unfold scroll_down_one_picture. repeat lock_step.
Qed.

Lemma lock_back_iteration :
  lockstep eq (back_iteration shape matchTemplate dev1)
              (back_iteration shape matchTemplate dev2).
Proof.
  autounfold with machine. lock_read ok. destruct ok; simpl; [|repeat lock_step].
  lock_step. lock_read coord. destruct coord as [[x y]|]; repeat lock_step.
Qed.

Lemma lock_download_all dry_run :
  lockstep eq (download_all_photos_from_entry shape matchTemplate dev1 dry_run)
              (download_all_photos_from_entry shape matchTemplate dev2 dry_run).
Proof.
  autounfold with machine. autounfold with loops.
  eapply lock_bind; [apply lock_for_range, lock_entry_iteration|]. intros ? ? _.
  eapply lock_bind; [apply lock_for_range, lock_back_iteration|]. intros ? ? _.
  by apply lock_ret.
Qed.

Lemma lock_main_iteration dry_run :
  lockstep eq (main_iteration shape matchTemplate dev1 dry_run)
              (main_iteration shape matchTemplate dev2 dry_run).
Proof.
  unfold main_iteration. lock_read ok.
  eapply (lock_bind eq).
  { destruct ok; [|by apply lock_ret]. lock_read coord. by apply lock_ret. }
  intros at_end ? <-. destruct at_end; [by apply lock_ret|].
  lock_read ok2. destruct ok2; [|by apply lock_ret].
  lock_read coords. destruct coords as [|c0 rest]; [repeat lock_step|].
  lock_step. lock_step.
  eapply lock_bind; [apply lock_download_all|]. intros _ _ _.
  unfold scroll_down_one_entry. repeat lock_step.
Qed.

Lemma lock_main dry_run :
  lockstep eq (main shape matchTemplate dev1 dry_run)
              (main shape matchTemplate dev2 dry_run).
Proof.
  unfold main.
  eapply (lock_bind eq).
  { destruct dry_run; [apply lock_print|by apply lock_ret]. }
  intros _ _ _. autounfold with loops.
  eapply lock_bind; [apply lock_for_range, lock_main_iteration|]. intros ? ? _.
  by apply lock_ret.
Qed.

End FailedGestures.

(** **** Extra X13.  A gesture that fails changes nothing in what the
    program does next and is not sent again.  Take two bridges that
    deliver the same capture after the same actions, and report the
    success of taps and swipes each in its own way: from the same world
    the program makes the same captures, taps, swipes and pauses in the
    same order on both, and leaves the same files. *)
Theorem failed_gestures_change_nothing {Image} (shape : Image -> Z * Z)
  (matchTemplate : Image -> Image -> ScoreMap) (dev1 dev2 : Device Image)
  (view : list Event -> Capture Image) (dry_run : bool) (w : World Image) :
  (∀ l, screencap dev1 l = view (actions l)) →
  (∀ l, screencap dev2 l = view (actions l)) →
  actions (log (snd (main shape matchTemplate dev1 dry_run w)))
  = actions (log (snd (main shape matchTemplate dev2 dry_run w)))
  ∧ fs (snd (main shape matchTemplate dev1 dry_run w))
    = fs (snd (main shape matchTemplate dev2 dry_run w)).
Proof.
  intros H1 H2.
  destruct (lock_main shape matchTemplate dev1 dev2 view H1 H2 dry_run w w)
    as [_ [Hfs Hact]]; [done|].
  by split.
Qed.

(** ** The further properties on the synthetic bridge *)

Section MoreExamples.

Import Demo.

(** The budget of extra X1 is reached when no frame shows a glyph. *)
Example entry_capture_budget_reached :
  length (captures (log (snd (download_all_photos_from_entry shape matchTemplate
                                (steady blank) false world0))))
  = 105%nat.
Proof. vm_compute. reflexivity. Qed.

(** Extra X3 on the story and the download template. *)
Lemma main_writes_only_the_screenshot_witness :
  "download.png" ≠ "screen.png"
  ∧ fs (snd (main shape matchTemplate (scripted story) false world0)) !! "download.png"
    = fs world0 !! "download.png".
Proof.
  assert (Hp : "download.png" ≠ "screen.png") by discriminate.
  split; [exact Hp|].
  exact (main_writes_only_the_screenshot shape matchTemplate (scripted story)
           false world0 "download.png" Hp).
Defined.

(** Extra X5 on a blank frame. *)
Lemma no_element_no_elements_witness :
  fst (find_element shape matchTemplate "download.png" screen_png default_threshold
         (seeing blank)) = None
  ∧ fst (find_all_elements shape matchTemplate "download.png" screen_png
           default_threshold (seeing blank)) = [].
Proof.
  assert (H : fst (find_element shape matchTemplate "download.png" screen_png
                     default_threshold (seeing blank)) = None)
    by (vm_compute; reflexivity).
  split; [exact H|].
  exact (no_element_no_elements shape matchTemplate "download.png" screen_png
           default_threshold (seeing blank) H).
Defined.

(** Extra X7 before any capture was made: there is no [screen.png]. *)
Lemma unreadable_screenshot_shows_nothing_witness :
  (∀ img, fs world0 !! screen_png ≠ Some (Picture img))
  ∧ fst (find_element shape matchTemplate "download.png" screen_png default_threshold
           world0) = None
  ∧ fst (find_all_elements shape matchTemplate "download.png" screen_png
           default_threshold world0) = [].
Proof.
  assert (H : ∀ img, fs world0 !! screen_png ≠ Some (Picture img))
    by (intros img; vm_compute; discriminate).
  split; [exact H|].
  exact (unreadable_screenshot_shows_nothing shape matchTemplate "download.png"
           screen_png default_threshold world0 H).
Defined.

(** Extra X8: a frame that showed the download glyph, then no adb. *)
Lemma failed_capture_leaves_no_stale_frame_witness :
  let w := seeing (frame [("download.png", glyph_at 20 6)]) in
  let dev := steady NoAdb in
  let w1 := snd (take_screenshot dev screen_png w) in
  screencap dev (log w) = NoAdb
  ∧ fst (find_element shape matchTemplate "download.png" screen_png default_threshold w)
    = Some (40, 26)
  ∧ fst (find_element shape matchTemplate "download.png" screen_png default_threshold w1)
    = None.
Proof.
  intros w dev w1.
  assert (H : screencap dev (log w) = NoAdb) by reflexivity.
  split; [exact H|]. split; [vm_compute; reflexivity|].
  destruct (failed_capture_leaves_no_stale_frame shape matchTemplate dev screen_png w H)
    as (_ & Hnone & _).
  exact (proj1 (Hnone "download.png" default_threshold)).
Defined.

(** Extra X9 on a photo open over the end of an entry. *)
Lemma open_photo_is_closed_first_witness :
  let dev := steady open_photo in
  let w1 := snd (take_screenshot dev screen_png world0) in
  let r := entry_iteration shape matchTemplate dev false world0 in
  fst (take_screenshot dev screen_png world0) = true
  ∧ found shape matchTemplate "closepic.png" (fs w1) = Some (70, 22)
  ∧ is_Some (found shape matchTemplate "add_your_comment.png" (fs w1))
  ∧ fst r = Continue
  ∧ gestures (log (snd r)) = gestures (log world0) ++ [Tap ClosePhoto 70 22; Sleep 1].
Proof.
  intros dev w1 r.
  assert (H1 : fst (take_screenshot dev screen_png world0) = true) by reflexivity.
  assert (H2 : found shape matchTemplate "closepic.png" (fs w1) = Some (70, 22))
    by (vm_compute; reflexivity).
  split; [exact H1|]. split; [exact H2|].
  split; [exists (25, 29); vm_compute; reflexivity|].
  destruct (open_photo_is_closed_first shape matchTemplate dev false world0 70 22 H1 H2)
    as (Hf & Hg & _).
  split; [exact Hf|exact Hg].
Defined.

(** Extra X10 on the last frame of the story. *)
Lemma end_of_list_stops_the_walk_witness :
  let dev := scripted (drop 5 story) in
  let w1 := snd (take_screenshot dev screen_png world0) in
  fst (take_screenshot dev screen_png world0) = true
  ∧ is_Some (found shape matchTemplate "loadmore.png" (fs w1))
  ∧ main_loop shape matchTemplate dev false world0
    = (false, snd (main_iteration shape matchTemplate dev false world0)).
Proof.
  intros dev w1.
  assert (H1 : fst (take_screenshot dev screen_png world0) = true) by reflexivity.
  assert (H2 : is_Some (found shape matchTemplate "loadmore.png" (fs w1)))
    by (exists (30, 30); vm_compute; reflexivity).
  split; [exact H1|]. split; [exact H2|].
  exact (proj1 (end_of_list_stops_the_walk shape matchTemplate dev false world0 H1 H2)).
Defined.

(** Extra X12 on a glyph that passes the threshold at two places. *)
Lemma find_all_elements_needs_two_places_witness :
  let img := Screen [("download.png", glyph_at 20 6)] in
  let tpl := Glyph "download.png" 40 40 in
  let w := {| fs := <[screen_png := Picture img]> templates; log := [] |} in
  fs w !! "download.png" = Some (Picture tpl)
  ∧ fs w !! screen_png = Some (Picture img)
  ∧ (2 * length (fst (find_all_elements shape matchTemplate "download.png" screen_png
                        default_threshold w))
     <= length (Cv2.where_ge (matchTemplate img tpl) default_threshold))%nat.
Proof.
  intros img tpl w.
  assert (Ht : fs w !! "download.png" = Some (Picture tpl)) by (vm_compute; reflexivity).
  assert (Hs : fs w !! screen_png = Some (Picture img)) by (vm_compute; reflexivity).
  split; [exact Ht|]. split; [exact Hs|].
  exact (find_all_elements_needs_two_places shape matchTemplate "download.png"
           screen_png default_threshold w tpl img Ht Hs).
Defined.

(** On the story, a bridge that reports every gesture as failed gets the
    same commands as one that reports them sent. *)
Example story_with_failed_gestures :
  commands (log (snd (main shape matchTemplate (replay false story) false world0)))
  = commands (log (snd (main shape matchTemplate (replay true story) false world0))).
Proof. vm_compute. reflexivity. Qed.

(** Extra X13 on the story. *)
Lemma failed_gestures_change_nothing_witness :
  let view := fun acts => nth (length (captures acts)) story NoAdb in
  (∀ l, screencap (replay true story) l = view (actions l))
  ∧ (∀ l, screencap (replay false story) l = view (actions l))
  ∧ actions (log (snd (main shape matchTemplate (replay true story) false world0)))
    = actions (log (snd (main shape matchTemplate (replay false story) false world0))).
Proof.
  intros view.
  assert (H1 : ∀ l, screencap (replay true story) l = view (actions l))
    by (intros l; reflexivity).
  assert (H2 : ∀ l, screencap (replay false story) l = view (actions l))
    by (intros l; reflexivity).
  split; [exact H1|]. split; [exact H2|].
  exact (proj1 (failed_gestures_change_nothing shape matchTemplate
                  (replay true story) (replay false story) view false world0 H1 H2)).
Defined.

End MoreExamples.
